(** * python-lenses: the [Lens] front-end

    A shallow embedding of the user-facing accessor class [Lens] of the
    lenses library ([lenses/ui.py], and the methods [call], [call_mut]
    and the operators of [lenses/ui/base.py]), together with the
    part of the Python run time that the class relies on: values, the
    store of mutable objects, exceptions, [copy] and the methods of the
    built-in types.  The optics engine that the class delegates to is
    taken as an interface, and modelled from the specification where a
    property depends on it. *)

From Stdlib Require Import List String Ascii ZArith Bool Arith Lia.
From Stdlib Require Import Sorting.Sorted Sorting.Permutation.
Import ListNotations.

Local Open Scope string_scope.
Local Open Scope Z_scope.
Local Open Scope list_scope.

Set Implicit Arguments.
Set Warnings "-register-all".

(* ================================================================== *)
(** * Python values and the object store *)
(* ================================================================== *)

(** Mutable objects live in a store and are referred to by location. *)
Definition loc := nat.

(** The Python values the development needs.  Tuples, records (such as
    namedtuples) and scalars are immutable and are represented by value;
    a Python [list] is a mutable object and is represented by a reference
    into the store. *)
Inductive val : Type :=
| VNone
| VNotImplemented
| VBool (b : bool)
| VInt (z : Z)
| VStr (s : string)
| VTuple (items : list val)
| VObj (attrs : list (string * val))
| VRef (l : loc).

(** The store: location [l] holds the items of the list object [l]. *)
Definition heap := list (list val).

(** The exceptions.  [NotModelled] is not an exception of Python: it
    marks a step that leaves the part of the run time that is modelled
    here (floating-point results, methods of the built-in types that are
    not implemented below, methods of classes).  What Python does at
    such a step is left open, and no property is stated of it. *)
Inductive exn : Type :=
| ValueError (msg : string)
| IndexError (msg : string)
| TypeError (msg : string)
| AttributeError (msg : string)
| ZeroDivisionError (msg : string)
| RecursionError
| CapabilityError (msg : string)
| NotModelled (what : string).

Inductive result (A : Type) : Type :=
| Ok (a : A)
| Raise (e : exn).
Arguments Ok {A} a.
Arguments Raise {A} e.

(** Computations read and update the store and may raise.  An exception
    does not roll the store back. *)
Definition M (A : Type) : Type := heap -> result A * heap.

Definition ret {A} (a : A) : M A := fun h => (Ok a, h).

Definition raise {A} (e : exn) : M A := fun h => (Raise e, h).

Definition bindM {A B} (m : M A) (k : A -> M B) : M B :=
  fun h => match m h with
           | (Ok a, h') => k a h'
           | (Raise e, h') => (Raise e, h')
           end.

Declare Scope py_scope.
Delimit Scope py_scope with py.
Notation "x <- m ;; k" := (bindM m (fun x => k))
  (at level 100, m at next level, right associativity) : py_scope.
Notation "m ;;; k" := (bindM m (fun _ => k))
  (at level 100, right associativity) : py_scope.
Local Open Scope py_scope.

Fixpoint mapM {A B} (f : A -> M B) (l : list A) : M (list B) :=
  match l with
  | [] => ret []
  | a :: rest => b <- f a ;; bs <- mapM f rest ;; ret (b :: bs)
  end.

(** ** Store primitives *)

Definition read (l : loc) : M (list val) :=
  fun h => match nth_error h l with
           | Some items => (Ok items, h)
           | None => (Raise (ValueError "dangling reference"), h)
           end.

Definition alloc (items : list val) : M loc :=
  fun h => (Ok (List.length h), h ++ [items]).

Fixpoint update {A} (l : list A) (n : nat) (a : A) : list A :=
  match l, n with
  | [], _ => []
  | _ :: rest, O => a :: rest
  | x :: rest, S n' => x :: update rest n' a
  end.

Definition write (l : loc) (items : list val) : M unit :=
  fun h => match nth_error h l with
           | Some _ => (Ok tt, update h l items)
           | None => (Raise (ValueError "dangling reference"), h)
           end.

(** ** Strings *)

(** [s.startswith(p)] *)
Definition startswith (s p : string) : bool := String.prefix p s.

(** [s.endswith(p)] *)
Definition endswith (s p : string) : bool :=
  let n := String.length s in
  let m := String.length p in
  (m <=? n)%nat && String.eqb (substring (n - m) m s) p.

(** [s[n:]] *)
Definition slice_from (n : nat) (s : string) : string :=
  substring n (String.length s - n) s.

Definition is_space (c : ascii) : bool :=
  match c with
  | " "%char | "009"%char | "010"%char | "011"%char | "012"%char | "013"%char => true
  | _ => false
  end.

(** [s.split()]: the maximal runs of non-blank characters. *)
Fixpoint split_aux (s : string) (cur : string) : list string :=
  match s with
  | EmptyString => match cur with EmptyString => [] | _ => [cur] end
  | String c rest =>
      if is_space c
      then match cur with
           | EmptyString => split_aux rest EmptyString
           | _ => cur :: split_aux rest EmptyString
           end
      else split_aux rest (cur ++ String c EmptyString)%string
  end.

Definition split (s : string) : list string := split_aux s EmptyString.

(** ** Keyword arguments *)

Definition kwargs := list (string * val).

(** [kwargs[k]] when [k in kwargs]. *)
Fixpoint kw_get (kw : kwargs) (k : string) : option val :=
  match kw with
  | [] => None
  | (k', v) :: rest => if String.eqb k' k then Some v else kw_get rest k
  end.

(** [del kwargs[k]] *)
Definition kw_del (kw : kwargs) (k : string) : kwargs :=
  filter (fun p => negb (String.eqb (fst p) k)) kw.

(** An optional parameter with a default: [None] is an omitted argument. *)
Definition default_arg (a : option val) (d : val) : val :=
  match a with Some v => v | None => d end.

(** [v is None] *)
Definition is_None (v : val) : bool :=
  match v with VNone => true | _ => false end.

(* ================================================================== *)
(** * The Python run time used by the front-end *)
(* ================================================================== *)

(** Truth value of an object, as tested by [if] and the conditional
    expression. *)
Definition truthy (v : val) : M bool :=
  match v with
  | VNone => ret false
  | VNotImplemented => ret true
  | VBool b => ret b
  | VInt z => ret (negb (z =? 0))
  | VStr s => ret (negb (String.eqb s EmptyString))
  | VTuple items => ret (match items with [] => false | _ => true end)
  | VObj _ => ret true
  | VRef l => items <- read l ;; ret (match items with [] => false | _ => true end)
  end.

(** ** [copy.copy] and [copy.deepcopy] *)

(** A shallow copy of a list is a new list object holding the same
    items; immutable values are returned as they are. *)
Definition copy_copy (a : val) : M val :=
  match a with
  | VRef l => items <- read l ;; l' <- alloc items ;; ret (VRef l')
  | _ => ret a
  end.

(** [deepcopy] keeps a memo from the objects already copied to their
    copies, so that sharing and cycles are reproduced in the copy. *)
Definition memo := list (loc * loc).

Fixpoint memo_get (m : memo) (l : loc) : option loc :=
  match m with
  | [] => None
  | (k, v) :: rest => if Nat.eqb k l then Some v else memo_get rest l
  end.

Section DeepcopyItems.
Variable rec : memo -> val -> M (val * memo).

Fixpoint deepcopy_items (m : memo) (items : list val) : M (list val * memo) :=
  match items with
  | [] => ret ([], m)
  | a :: rest =>
      r <- rec m a ;;
      rs <- deepcopy_items (snd r) rest ;;
      ret (fst r :: fst rs, snd rs)
  end.

Fixpoint deepcopy_attrs (m : memo) (attrs : list (string * val))
  : M (list (string * val) * memo) :=
  match attrs with
  | [] => ret ([], m)
  | (k, a) :: rest =>
      r <- rec m a ;;
      rs <- deepcopy_attrs (snd r) rest ;;
      ret ((k, fst r) :: fst rs, snd rs)
  end.
End DeepcopyItems.

(** The recursion depth is bounded, as the interpreter's is. *)
Fixpoint deepcopy_memo (depth : nat) (m : memo) (x : val) : M (val * memo) :=
  match depth with
  | O => raise RecursionError
  | S d =>
      match x with
      | VRef l =>
          match memo_get m l with
          | Some l' => ret (VRef l', m)
          | None =>
              items <- read l ;;
              l' <- alloc [] ;;
              r <- deepcopy_items (deepcopy_memo d) ((l, l') :: m) items ;;
              write l' (fst r) ;;;
              ret (VRef l', snd r)
          end
      | VTuple items =>
          r <- deepcopy_items (deepcopy_memo d) m items ;;
          ret (VTuple (fst r), snd r)
      | VObj attrs =>
          r <- deepcopy_attrs (deepcopy_memo d) m attrs ;;
          ret (VObj (fst r), snd r)
      | _ => ret (x, m)
      end
  end.

Definition recursion_limit : nat := 1000.

Definition copy_deepcopy (a : val) : M val :=
  r <- deepcopy_memo recursion_limit [] a ;; ret (fst r).

(** ** Methods of the built-in types *)

Fixpoint insert_sorted (z : Z) (l : list Z) : list Z :=
  match l with
  | [] => [z]
  | y :: rest => if z <=? y then z :: l else y :: insert_sorted z rest
  end.

Fixpoint sorted (l : list Z) : list Z :=
  match l with
  | [] => []
  | z :: rest => insert_sorted z (sorted rest)
  end.

Fixpoint as_ints (items : list val) : option (list Z) :=
  match items with
  | [] => Some []
  | VInt z :: rest =>
      match as_ints rest with Some zs => Some (z :: zs) | None => None end
  | _ => None
  end.

(** The items of an iterable argument.  A string is iterated character
    by character; what iterating over an instance of a class gives is
    outside the model. *)
Definition iter_items (v : val) : M (list val) :=
  match v with
  | VTuple items => ret items
  | VRef l => read l
  | VStr s =>
      ret (map (fun c => VStr (String c EmptyString)) (list_ascii_of_string s))
  | VObj _ => raise (NotModelled "iteration over an instance")
  | _ => raise (TypeError "object is not iterable")
  end.

(** *** Names of special methods *)

Fixpoint assoc {A} (name : string) (l : list (string * A)) : option A :=
  match l with
  | [] => None
  | (k, x) :: rest => if String.eqb k name then Some x else assoc name rest
  end.

Definition has_name (name : string) (l : list string) : bool :=
  existsb (String.eqb name) l.

(** The special methods of the comparison and arithmetic operators in
    the data model of the language, with their reflected forms, and
    [__div__] and [__rdiv__], which no built-in type of Python 3 has. *)
Definition operator_dunders : list string :=
  ["__lt__"; "__le__"; "__eq__"; "__ne__"; "__gt__"; "__ge__";
   "__add__"; "__sub__"; "__mul__"; "__matmul__"; "__truediv__";
   "__floordiv__"; "__div__"; "__mod__"; "__divmod__"; "__pow__";
   "__lshift__"; "__rshift__"; "__and__"; "__xor__"; "__or__";
   "__radd__"; "__rsub__"; "__rmul__"; "__rmatmul__"; "__rtruediv__";
   "__rfloordiv__"; "__rdiv__"; "__rmod__"; "__rdivmod__"; "__rpow__";
   "__rlshift__"; "__rrshift__"; "__rand__"; "__rxor__"; "__ror__";
   "__neg__"; "__pos__"; "__invert__"].

(** The operator methods that every object has, those of [tuple] and
    [list], and those of [str]. *)
Definition comparison_dunders : list string :=
  ["__lt__"; "__le__"; "__eq__"; "__ne__"; "__gt__"; "__ge__"].

Definition sequence_dunders : list string :=
  comparison_dunders ++ ["__add__"; "__mul__"; "__rmul__"].

Definition str_dunders : list string :=
  sequence_dunders ++ ["__mod__"; "__rmod__"].

(** [getattr(a, name)] for a name that the model implements no method
    for, [present] being the operator methods that the type of [a] has:
    an operator method that the type lacks is an [AttributeError]; what
    any other name gives is outside the model. *)
Definition missing (present : list string) (name : string) : exn :=
  if has_name name operator_dunders && negb (has_name name present)
  then AttributeError name
  else NotModelled name.

(** *** [list] *)

(** Methods of [list]: [sort] (for lists of integers, without the
    [key] and [reverse] options), [reverse], [clear], [append],
    [extend], [pop] (without an index) and [__add__]. *)
Definition list_method (l : loc) (name : string) (args : list val) (kw : kwargs)
  : M val :=
  items <- read l ;;
  if String.eqb name "sort" then
    match args, kw with
    | [], [] =>
        match as_ints items with
        | Some zs => write l (map VInt (sorted zs)) ;;; ret VNone
        | None => raise (NotModelled "sort of items that are not all int")
        end
    | [], _ :: _ => raise (NotModelled "sort with options")
    | _ :: _, _ => raise (TypeError "sort() takes no positional arguments")
    end
  else if String.eqb name "reverse" then
    match args, kw with
    | [], [] => write l (rev items) ;;; ret VNone
    | _, _ => raise (TypeError "reverse() takes no arguments")
    end
  else if String.eqb name "clear" then
    match args, kw with
    | [], [] => write l [] ;;; ret VNone
    | _, _ => raise (TypeError "clear() takes no arguments")
    end
  else if String.eqb name "append" then
    match args, kw with
    | [x], [] => write l (items ++ [x]) ;;; ret VNone
    | _, _ => raise (TypeError "append() takes exactly one argument")
    end
  else if String.eqb name "extend" then
    match args, kw with
    | [x], [] => more <- iter_items x ;; write l (items ++ more) ;;; ret VNone
    | _, _ => raise (TypeError "extend() takes exactly one argument")
    end
  else if String.eqb name "pop" then
    match args, kw with
    | [], [] =>
        match rev items with
        | [] => raise (IndexError "pop from empty list")
        | last :: front => write l (rev front) ;;; ret last
        end
    | [_], [] => raise (NotModelled "pop with an index")
    | _, _ => raise (TypeError "pop() takes at most 1 argument, no keyword")
    end
  else if String.eqb name "__add__" then
    match args, kw with
    | [VRef l2], [] =>
        more <- read l2 ;; l' <- alloc (items ++ more) ;; ret (VRef l')
    | [_], [] => raise (TypeError "can only concatenate list to list")
    | _, _ => raise (TypeError "expected 1 argument")
    end
  else raise (missing sequence_dunders name).

(** *** [int] and [bool] *)

Definition int_floordiv (a b : Z) : result val :=
  if b =? 0
  then Raise (ZeroDivisionError "integer division or modulo by zero")
  else Ok (VInt (a / b)).

Definition int_mod (a b : Z) : result val :=
  if b =? 0
  then Raise (ZeroDivisionError "integer modulo by zero")
  else Ok (VInt (a mod b)).

Definition int_divmod (a b : Z) : result val :=
  if b =? 0
  then Raise (ZeroDivisionError "integer division or modulo by zero")
  else Ok (VTuple [VInt (a / b); VInt (a mod b)]).

(** The quotient of [a / b] is a [float]. *)
Definition int_truediv (a b : Z) : result val :=
  if b =? 0
  then Raise (ZeroDivisionError "division by zero")
  else Raise (NotModelled "float").

(** A power with a negative exponent is a [float]. *)
Definition int_pow (a b : Z) : result val :=
  if 0 <=? b then Ok (VInt (a ^ b))
  else if a =? 0
  then Raise (ZeroDivisionError "0.0 cannot be raised to a negative power")
  else Raise (NotModelled "float").

Definition int_lshift (a b : Z) : result val :=
  if b <? 0 then Raise (ValueError "negative shift count")
  else Ok (VInt (Z.shiftl a b)).

Definition int_rshift (a b : Z) : result val :=
  if b <? 0 then Raise (ValueError "negative shift count")
  else Ok (VInt (Z.shiftr a b)).

(** The binary special methods of [int], [a] being the object and [b]
    the argument.  Integers are unbounded; the bit operations are those
    of two's complement. *)
Definition int_binary_methods : list (string * (Z -> Z -> result val)) :=
  [("__lt__", fun a b => Ok (VBool (a <? b)));
   ("__le__", fun a b => Ok (VBool (a <=? b)));
   ("__eq__", fun a b => Ok (VBool (a =? b)));
   ("__ne__", fun a b => Ok (VBool (negb (a =? b))));
   ("__gt__", fun a b => Ok (VBool (b <? a)));
   ("__ge__", fun a b => Ok (VBool (b <=? a)));
   ("__add__", fun a b => Ok (VInt (a + b)));
   ("__sub__", fun a b => Ok (VInt (a - b)));
   ("__mul__", fun a b => Ok (VInt (a * b)));
   ("__truediv__", int_truediv);
   ("__floordiv__", int_floordiv);
   ("__mod__", int_mod);
   ("__divmod__", int_divmod);
   ("__pow__", int_pow);
   ("__lshift__", int_lshift);
   ("__rshift__", int_rshift);
   ("__and__", fun a b => Ok (VInt (Z.land a b)));
   ("__xor__", fun a b => Ok (VInt (Z.lxor a b)));
   ("__or__", fun a b => Ok (VInt (Z.lor a b)));
   ("__radd__", fun a b => Ok (VInt (b + a)));
   ("__rsub__", fun a b => Ok (VInt (b - a)));
   ("__rmul__", fun a b => Ok (VInt (b * a)));
   ("__rtruediv__", fun a b => int_truediv b a);
   ("__rfloordiv__", fun a b => int_floordiv b a);
   ("__rmod__", fun a b => int_mod b a);
   ("__rdivmod__", fun a b => int_divmod b a);
   ("__rpow__", fun a b => int_pow b a);
   ("__rlshift__", fun a b => int_lshift b a);
   ("__rrshift__", fun a b => int_rshift b a);
   ("__rand__", fun a b => Ok (VInt (Z.land b a)));
   ("__rxor__", fun a b => Ok (VInt (Z.lxor b a)));
   ("__ror__", fun a b => Ok (VInt (Z.lor b a)))].

Definition int_unary_methods : list (string * (Z -> result val)) :=
  [("__neg__", fun a => Ok (VInt (- a)));
   ("__pos__", fun a => Ok (VInt a));
   ("__invert__", fun a => Ok (VInt (- a - 1)));
   ("__abs__", fun a => Ok (VInt (Z.abs a)))].

(** The names of the binary special methods of [int]: every binary
    method of [operator_dunders] but [__matmul__], [__div__] and their
    reflected forms, which [int] does not have. *)
Definition int_binary_dunders : list string := map fst int_binary_methods.

(** The operator methods that [int] has. *)
Definition int_dunders : list string :=
  int_binary_dunders ++ ["__neg__"; "__pos__"; "__invert__"].

(** Binary and unary special methods of [int]; they do not touch the
    store. *)
Definition int_binop (name : string) (a b : Z) : option (result val) :=
  match assoc name int_binary_methods with
  | Some method => Some (method a b)
  | None => None
  end.

Definition int_unop (name : string) (a : Z) : option (result val) :=
  match assoc name int_unary_methods with
  | Some method => Some (method a)
  | None => None
  end.

(** An [int] operand; [bool] is a subclass of [int]. *)
Definition as_int (v : val) : option Z :=
  match v with
  | VInt z => Some z
  | VBool b => Some (if b then 1 else 0)
  | _ => None
  end.

(** The call of the method [name] of an integer [a].  A binary method
    returns [NotImplemented] for an argument that is not an [int]; a
    call with the wrong number of arguments or with keywords is a
    [TypeError]; [pow] with a modulus is outside the model. *)
Definition int_call (a : Z) (name : string) (args : list val) (kw : kwargs)
  : result val :=
  match int_unop name a, assoc name int_binary_methods with
  | Some r, _ =>
      match args, kw with
      | [], [] => r
      | _, _ => Raise (TypeError "expected 0 arguments, no keyword")
      end
  | None, Some method =>
      match args, kw with
      | [x], [] =>
          match as_int x with
          | Some b => method a b
          | None => Ok VNotImplemented
          end
      | [_; _], [] =>
          if has_name name ["__pow__"; "__rpow__"]
          then Raise (NotModelled "pow with a modulus")
          else Raise (TypeError "expected 1 argument, no keyword")
      | _, _ => Raise (TypeError "expected 1 argument, no keyword")
      end
  | None, None => Raise (missing int_dunders name)
  end.

Definition int_method (a : Z) (name : string) (args : list val) (kw : kwargs)
  : M val :=
  fun h => (int_call a name args kw, h).

(** The methods that [bool] defines itself: on two [bool]s the bit
    operations give a [bool]. *)
Definition bool_binary_methods : list (string * (bool -> bool -> bool)) :=
  [("__and__", andb); ("__xor__", xorb); ("__or__", orb);
   ("__rand__", andb); ("__rxor__", xorb); ("__ror__", orb)].

(** The other methods of a [bool] are those of the integers [1] and
    [0]. *)
Definition bool_method (b : bool) (name : string) (args : list val) (kw : kwargs)
  : M val :=
  match assoc name bool_binary_methods, args, kw with
  | Some method, [VBool c], [] => ret (VBool (method b c))
  | _, _, _ => int_method (if b then 1 else 0) name args kw
  end.

(** *** [str] *)

Fixpoint str_repeat (s : string) (n : nat) : string :=
  match n with
  | O => EmptyString
  | S n' => (s ++ str_repeat s n')%string
  end.

(** [s * x]: the string repeated; no repetition for a negative count. *)
Definition str_mul (s : string) (x : val) : result val :=
  match as_int x with
  | Some n => Ok (VStr (str_repeat s (Z.to_nat n)))
  | None => Raise (TypeError "object cannot be interpreted as an integer")
  end.

(** Comparison with another string, character by character. *)
Definition str_compare (test : comparison -> bool) (s : string) (x : val)
  : result val :=
  match x with
  | VStr t => Ok (VBool (test (String.compare s t)))
  | _ => Ok VNotImplemented
  end.

(** The special methods of [str] that the model implements. *)
Definition str_binary_methods : list (string * (string -> val -> result val)) :=
  [("__lt__", str_compare (fun c => match c with Lt => true | _ => false end));
   ("__le__", str_compare (fun c => match c with Gt => false | _ => true end));
   ("__eq__", str_compare (fun c => match c with Eq => true | _ => false end));
   ("__ne__", str_compare (fun c => match c with Eq => false | _ => true end));
   ("__gt__", str_compare (fun c => match c with Gt => true | _ => false end));
   ("__ge__", str_compare (fun c => match c with Lt => false | _ => true end));
   ("__add__", fun s x =>
      match x with
      | VStr t => Ok (VStr (s ++ t))
      | _ => Raise (TypeError "can only concatenate str to str")
      end);
   ("__mul__", str_mul);
   ("__rmul__", str_mul)].

Definition str_call (s : string) (name : string) (args : list val) (kw : kwargs)
  : result val :=
  match assoc name str_binary_methods with
  | Some method =>
      match args, kw with
      | [x], [] => method s x
      | _, _ => Raise (TypeError "expected 1 argument, no keyword")
      end
  | None => Raise (missing str_dunders name)
  end.

Definition str_method (s : string) (name : string) (args : list val) (kw : kwargs)
  : M val :=
  fun h => (str_call s name args kw, h).

(** *** Method calls *)

(** The call of the method [name] of [a], that is [getattr(a, name)]
    applied to the positional and keyword arguments.  The methods of
    tuples, of [None] and [NotImplemented], and of instances of classes
    are outside the model; the operator methods that [tuple], [None]
    and [NotImplemented] lack raise [AttributeError]. *)
Definition call_method (a : val) (name : string) (args : list val) (kw : kwargs)
  : M val :=
  match a with
  | VRef l => list_method l name args kw
  | VInt z => int_method z name args kw
  | VBool b => bool_method b name args kw
  | VStr s => str_method s name args kw
  | VTuple _ => raise (missing sequence_dunders name)
  | VNone | VNotImplemented => raise (missing comparison_dunders name)
  | VObj _ => raise (NotModelled name)
  end.

(** ** The operators of the language *)









(** ** Item and attribute access *)

(** Position of index [k] in a sequence of length [n]; negative indices
    count from the end. *)
Definition position (n : nat) (k : Z) : option nat :=
  let k' := if k <? 0 then k + Z.of_nat n else k in
  if (0 <=? k') && (k' <? Z.of_nat n) then Some (Z.to_nat k') else None.

(** [state[key]] *)
Definition getitem (state key : val) : M val :=
  match state, key with
  | VTuple items, VInt k =>
      match position (List.length items) k with
      | Some i => match nth_error items i with
                  | Some a => ret a
                  | None => raise (IndexError "tuple index out of range")
                  end
      | None => raise (IndexError "tuple index out of range")
      end
  | VRef l, VInt k =>
      items <- read l ;;
      match position (List.length items) k with
      | Some i => match nth_error items i with
                  | Some a => ret a
                  | None => raise (IndexError "list index out of range")
                  end
      | None => raise (IndexError "list index out of range")
      end
  | _, _ => raise (TypeError "object is not subscriptable")
  end.

(** [getattr(state, name)] for a record. *)
Fixpoint attr_get (attrs : list (string * val)) (name : string) : option val :=
  match attrs with
  | [] => None
  | (k, v) :: rest => if String.eqb k name then Some v else attr_get rest name
  end.

Fixpoint attr_set (attrs : list (string * val)) (name : string) (v : val)
  : list (string * val) :=
  match attrs with
  | [] => []
  | (k, x) :: rest =>
      if String.eqb k name then (k, v) :: rest else (k, x) :: attr_set rest name v
  end.

Definition getattr (state : val) (name : string) : M val :=
  match state with
  | VObj attrs =>
      match attr_get attrs name with
      | Some v => ret v
      | None => raise (AttributeError name)
      end
  | _ => raise (AttributeError name)
  end.

(* ================================================================== *)
(** * The optics engine, as the front-end sees it *)
(* ================================================================== *)

(** [lenses/ui.py] imports the module [optics] and uses its class
    [LensLike] through the methods below and through the constructors
    [TrivialIso], [GetitemLens] and [GetZoomAttrTraversal].  The front-end
    is embedded over any implementation of this interface. *)
Module optics.
Class Impl : Type := {
  LensLike : Type;
  TrivialIso : LensLike;
  GetitemLens : val -> LensLike;
  GetZoomAttrTraversal : string -> LensLike;
  compose : LensLike -> LensLike -> M LensLike;
  to_list_of : LensLike -> val -> M (list val);
  over : LensLike -> val -> (val -> M val) -> M val;
  set : LensLike -> val -> val -> M val;
  view : LensLike -> val -> M val;
  re : LensLike -> M LensLike;
  from_ : LensLike -> M LensLike
}.
End optics.

(* ================================================================== *)
(** * The class [Lens] of [lenses/ui.py] *)
(* ================================================================== *)

(** The text from which [transparent_dunders] is split.  The augmented
    arithmetic methods are left out on purpose. *)
Definition transparent_dunders_text : string :=
"
    __lt__ __le__ __eq__ __ne__ __gt__ __ge__

    __add__ __sub__ __mul__ __matmul__ __truediv__
    __floordiv__ __div__ __mod__ __divmod__ __pow__
    __lshift__ __rshift__ __and__ __xor__ __or__

    __radd__ __rsub__ __rmul__ __rmatmul__ __rtruediv__
    __rfloordiv__ __rdiv__ __rmod__ __rdivmod__ __rpow__
    __rlshift__ __rrshift__ __rand__ __rxor__ __ror__

    __neg__ __pos__ __invert__
".

Definition transparent_dunders : list string := split transparent_dunders_text.

Section Facade.
Context {O : optics.Impl}.

(** An instance has the two slots [state] and [lens]; no method
    assigns to a slot after [__init__]. *)
Record Lens : Type := mkLens { state : val; lens : optics.LensLike }.

(** [Lens(state=None, lens=None)] *)
Definition __init__ (state : option val) (lens : option optics.LensLike) : Lens :=
  let lens := match lens with
              | None => optics.TrivialIso
              | Some l => l
              end in
  mkLens (default_arg state VNone) lens.

Definition _assert_bound (self : Lens) (name : string) : M unit :=
  if is_None (state self)
  then raise (ValueError (name ++ " requires a bound lens")%string)
  else ret tt.

Definition _assert_unbound (self : Lens) (name : string) : M unit :=
  if negb (is_None (state self))
  then raise (ValueError (name ++ " requires an unbound lens")%string)
  else ret tt.

Definition bind (self : Lens) (state : val) : M Lens :=
  _assert_unbound self "Lens.bind" ;;;
  ret (__init__ (Some state) (Some (lens self))).

(** The opening lines shared by the query methods:
    [if state is not None: self = self.bind(state)]. *)
Definition rebind (self : Lens) (state : val) : M Lens :=
  if negb (is_None state) then bind self state else ret self.

(** [l[0]] *)
Definition first_item (l : list val) : M val :=
  match l with
  | a :: _ => ret a
  | [] => raise (IndexError "list index out of range")
  end.

Definition get (self : Lens) (state : option val) : M val :=
  let state := default_arg state VNone in
  self <- rebind self state ;;
  _assert_bound self "Lens.get" ;;;
  l <- optics.to_list_of (lens self) (Facade.state self) ;;
  first_item l.

Definition get_all (self : Lens) (state : option val) : M (list val) :=
  let state := default_arg state VNone in
  self <- rebind self state ;;
  _assert_bound self "Lens.get_all" ;;;
  optics.to_list_of (lens self) (Facade.state self).

Definition get_monoid (self : Lens) (state : option val) : M val :=
  let state := default_arg state VNone in
  self <- rebind self state ;;
  _assert_bound self "Lens.get_monoid" ;;;
  optics.view (lens self) (Facade.state self).

Definition set (self : Lens) (newvalue : val) (state : option val) : M val :=
  let state := default_arg state VNone in
  self <- rebind self state ;;
  _assert_bound self "Lens.set" ;;;
  optics.set (lens self) (Facade.state self) newvalue.

Definition modify (self : Lens) (func : val -> M val) (state : option val)
  : M val :=
  let state := default_arg state VNone in
  self <- rebind self state ;;
  _assert_bound self "Lens.modify" ;;;
  optics.over (lens self) (Facade.state self) func.

(** [if 'state' in kwargs: self = self.bind(kwargs['state'])] *)
Definition bind_kwarg (self : Lens) (kw : kwargs) : M Lens :=
  match kw_get kw "state" with
  | Some s => bind self s
  | None => ret self
  end.

Definition call (self : Lens) (method_name : string) (args : list val)
    (kw : kwargs) : M val :=
  self <- bind_kwarg self kw ;;
  let kw := kw_del kw "state" in
  let func := fun a => call_method a method_name args kw in
  modify self func None.

(** The function [func] that [call_mut] hands to [modify]. *)
Definition call_mut_func (shallow : val) (method_name : string)
    (args : list val) (kw : kwargs) (a : val) : M val :=
  sh <- truthy shallow ;;
  a <- (if sh then copy_copy a else copy_deepcopy a) ;;
  call_method a method_name args kw ;;;
  ret a.

Definition call_mut (self : Lens) (method_name : string) (args : list val)
    (kw : kwargs) : M val :=
  self <- bind_kwarg self kw ;;
  let kw := kw_del kw "state" in
  let shallow := match kw_get kw "shallow" with
                 | Some v => v
                 | None => VBool false
                 end in
  let kw := kw_del kw "shallow" in
  modify self (call_mut_func shallow method_name args kw) None.

Definition construct (self : Lens) (focus : option val) : M val :=
  let focus := default_arg focus VNone in
  self <- rebind self focus ;;
  _assert_bound self "Lens.construct" ;;;
  r <- optics.re (lens self) ;;
  optics.view r (state self).

(** The argument of [add_lens], by its run-time class. *)
Inductive other_arg : Type :=
| IsLensLike (o : optics.LensLike)
| IsLens (other : Lens)
| IsOther (v : val).

Definition add_lens (self : Lens) (other : other_arg) : M Lens :=
  match other with
  | IsLensLike o =>
      c <- optics.compose (lens self) o ;;
      ret (__init__ (Some (state self)) (Some c))
  | IsLens other =>
      _assert_unbound other "Lens.add_lens" ;;;
      c <- optics.compose (lens self) (lens other) ;;
      ret (__init__ (Some (state self)) (Some c))
  | IsOther _ => raise (TypeError "Cannot add lens of type.")
  end.

Definition flip (self : Lens) : M Lens :=
  _assert_unbound self "Lens.flip" ;;;
  r <- optics.from_ (lens self) ;;
  ret (__init__ (Some (state self)) (Some r)).

Definition getitem_ (self : Lens) (key : val) : M Lens :=
  add_lens self (IsLensLike (optics.GetitemLens key)).

Definition getzoomattr_ (self : Lens) (name : string) : M Lens :=
  add_lens self (IsLensLike (optics.GetZoomAttrTraversal name)).

(** What an attribute access that reaches [__getattr__] evaluates to:
    a closure [caller] or a new accessor. *)
Inductive attribute : Type :=
| Caller (caller : list val -> kwargs -> M val)
| Accessor (l : Lens).

Definition __getattr__ (self : Lens) (name : string) : M attribute :=
  if endswith name "_" then
    raise (AttributeError "Not a valid lens constructor")
  else if startswith name "call_mut_" then
    ret (Caller (fun args kw => call_mut self (slice_from 9 name) args kw))
  else if startswith name "call_" then
    ret (Caller (fun args kw => call self (slice_from 5 name) args kw))
  else
    l <- add_lens self (IsLensLike (optics.GetZoomAttrTraversal name)) ;;
    ret (Accessor l).

Definition __getitem__ (self : Lens) (name : val) : M Lens :=
  add_lens self (IsLensLike (optics.GetitemLens name)).

(** [__get__(self, instance, owner)], the descriptor protocol: an
    accessor kept as a class attribute is looked up through the class
    ([instance] is [None]) or through an instance. *)
Definition __get__ (self : Lens) (instance owner : val) : M Lens :=
  if is_None instance then ret self else bind self instance.

Definition _underlying_lens (self : Lens) : optics.LensLike := lens self.

(** ** The operators added to the class *)

(** [_carry_op(name)] *)
Definition _carry_op (name : string) : Lens -> list val -> kwargs -> M val :=
  fun self args kw => modify self (fun a => call_method a name args kw) None.

(** The members of the class namespace: the functions defined in the
    class body, the slot descriptors, and the operations installed by
    [_add_extra_methods]. *)
Inductive member : Type :=
| Def
| Slot
| Operation (operation : Lens -> list val -> kwargs -> M val).

Definition namespace := list (string * member).

Fixpoint class_get (cls : namespace) (name : string) : option member :=
  match cls with
  | [] => None
  | (k, m) :: rest => if String.eqb k name then Some m else class_get rest name
  end.

(** [setattr(cls, name, m)] *)
Fixpoint setattr (cls : namespace) (name : string) (m : member) : namespace :=
  match cls with
  | [] => [(name, m)]
  | (k, x) :: rest =>
      if String.eqb k name then (k, m) :: rest else (k, x) :: setattr rest name m
  end.

Definition _add_extra_methods (cls : namespace) : namespace :=
  fold_left (fun cls dunder => setattr cls dunder (Operation (_carry_op dunder)))
            transparent_dunders cls.

(** The namespace produced by the class body. *)
Definition class_body : namespace :=
  [("state", Slot); ("lens", Slot)] ++
  map (fun name => (name, Def))
    ["__init__"; "__repr__"; "_assert_bound"; "_assert_unbound"; "get";
     "get_all"; "get_monoid"; "set"; "modify"; "call"; "call_mut";
     "construct"; "add_lens"; "bind"; "flip"; "both_"; "decode_"; "each_";
     "error_"; "f_"; "filter_"; "fork_"; "get_"; "getattr_"; "getitem_";
     "getter_setter_"; "getzoomattr_"; "instance_"; "iso_"; "item_";
     "item_by_value_"; "items_"; "iter_"; "json_"; "just_"; "keys_";
     "listwrap_"; "norm_"; "prism_"; "tuple_"; "values_"; "zoom_";
     "zoomattr_"; "__get__"; "__getattr__"; "__getitem__";
     "_underlying_lens"].

(** The class after the decorator [@_add_extra_methods]. *)
Definition Lens_class : namespace := _add_extra_methods class_body.

End Facade.

(* ================================================================== *)
(** * The class [Lens] of [lenses/ui/base.py] *)
(* ================================================================== *)

(** The base class holds the methods that bound and unbound accessors
    share.  It defines no [modify] of its own; its methods are embedded
    over any type of accessors and any [modify] method on it. *)
Module base.
Section Base.
Variable Lens : Type.
Variable modify : Lens -> (val -> M val) -> M val.

Definition call (self : Lens) (method_name : string) (args : list val)
    (kw : kwargs) : M val :=
  let func := fun a => call_method a method_name args kw in
  modify self func.

Definition call_mut (self : Lens) (method_name : string) (args : list val)
    (kw : kwargs) : M val :=
  let shallow := match kw_get kw "shallow" with
                 | Some v => v
                 | None => VBool false
                 end in
  let kw := kw_del kw "shallow" in
  modify self (call_mut_func shallow method_name args kw).

(** [_carry_op(name)] *)
Definition _carry_op (name : string) : Lens -> list val -> kwargs -> M val :=
  fun self args kw => modify self (fun a => call_method a name args kw).

End Base.
End base.

(* ================================================================== *)
(** * A model of the optics engine *)
(* ================================================================== *)

(** The module [lenses/optics.py] is not part of the sources at hand; the
    definitions of this section follow the specification's description of
    the composite optic (its sections 3, 4.1 and 4.2). *)
Module engine.

(** Modelled from the spec: the optic kinds of section 3, from the
    least to the most capable; the class hierarchy of [optics.py] is
    missing. *)
Inductive Kind : Type :=
| Fold | Setter | Getter | Traversal | Prism | KLens | Isomorphism | Equality.

(** Modelled from the spec: an optic instance of [optics.py] as a closed
    sum over the kinds, each variant carrying the functions it needs
    (design notes, duck-typed polymorphism over optic kinds). *)
Inductive optic : Type :=
| EqualityO
| IsomorphismO (forwards backwards : val -> M val)
| LensO (getter : val -> M val) (setter : val -> val -> M val)
| PrismO (unpack : val -> M (option val)) (pack : val -> M val)
| TraversalO (folder : val -> M (list val)) (builder : val -> list val -> M val)
| GetterO (getter : val -> M val)
| FoldO (folder : val -> M (list val))
| SetterO (modifier : val -> (val -> M val) -> M val).

(** Modelled from the spec: the kind of each variant (section 3). *)
Definition kind_of (o : optic) : Kind :=
  match o with
  | EqualityO => Equality
  | IsomorphismO _ _ => Isomorphism
  | LensO _ _ => KLens
  | PrismO _ _ => Prism
  | TraversalO _ _ => Traversal
  | GetterO _ => Getter
  | FoldO _ => Fold
  | SetterO _ => Setter
  end.

(** Modelled from the spec: the capability table of section 3, column
    get. *)
Definition readable (o : optic) : bool :=
  match kind_of o with Setter => false | _ => true end.

(** Modelled from the spec: the column set/modify of the same table. *)
Definition writable (o : optic) : bool :=
  match kind_of o with Fold | Getter => false | _ => true end.

(** Modelled from the spec: the kinds that support reversal. *)
Definition reversible (o : optic) : bool :=
  match kind_of o with Isomorphism | Equality => true | _ => false end.

(** Modelled from the spec: the composite optic of section 3, an ordered
    sequence of optic instances, outermost first; the empty sequence is
    the identity. *)
Definition CompositeOptic : Type := list optic.

(** Modelled from the spec: the foci of one optic in a state, by kind
    (section 3: exactly one for a Getter, a Lens, an Isomorphism and an
    Equality, none or one for a Prism, any number for a Traversal and a
    Fold, none readable for a Setter). *)
Definition foci1 (o : optic) (s : val) : M (list val) :=
  match o with
  | EqualityO => ret [s]
  | IsomorphismO forwards _ => a <- forwards s ;; ret [a]
  | LensO getter _ => a <- getter s ;; ret [a]
  | PrismO unpack _ =>
      m <- unpack s ;;
      ret (match m with Some a => [a] | None => [] end)
  | TraversalO folder _ => folder s
  | GetterO getter => a <- getter s ;; ret [a]
  | FoldO folder => folder s
  | SetterO _ => raise (CapabilityError "a Setter cannot be read")
  end.

(** Modelled from the spec: one optic's setter logic (section 4.2); the
    foci are replaced by their images under [f] and the state is rebuilt
    around them with the original state at hand. *)
Definition over1 (o : optic) (s : val) (f : val -> M val) : M val :=
  match o with
  | EqualityO => f s
  | IsomorphismO forwards backwards =>
      a <- forwards s ;; b <- f a ;; backwards b
  | LensO getter setter =>
      a <- getter s ;; b <- f a ;; setter s b
  | PrismO unpack pack =>
      m <- unpack s ;;
      match m with
      | Some a => b <- f a ;; pack b
      | None => ret s
      end
  | TraversalO folder builder =>
      l <- folder s ;; l' <- mapM f l ;; builder s l'
  | GetterO _ => raise (CapabilityError "a Getter cannot be modified")
  | FoldO _ => raise (CapabilityError "a Fold cannot be modified")
  | SetterO modifier => modifier s f
  end.

(** Modelled from the spec: the optics run left to right, each step
    expanding the list of intermediate states into the list of the foci
    reached through it (section 4.2). *)
Fixpoint foci (chain : CompositeOptic) (s : val) : M (list val) :=
  match chain with
  | [] => ret [s]
  | o :: rest =>
      l <- foci1 o s ;;
      ls <- mapM (foci rest) l ;;
      ret (List.concat ls)
  end.

(** Modelled from the spec: the innermost substitution happens first,
    then each wrapping optic's setter is invoked with the original
    substate and the rebuilt inner value (section 4.2). *)
Fixpoint over_chain (chain : CompositeOptic) (s : val) (f : val -> M val)
  : M val :=
  match chain with
  | [] => f s
  | o :: rest => over1 o s (fun a => over_chain rest a f)
  end.

(** Modelled from the spec: [to_list_of] of section 4.2; the optics run
    left to right and every leaf focus is listed in order.  A chain
    with a write-only optic cannot be read. *)
Definition to_list_of (chain : CompositeOptic) (s : val) : M (list val) :=
  if forallb readable chain then foci chain s
  else raise (CapabilityError "the optic cannot be read").

(** Modelled from the spec: [over] of section 4.2; the function is
    applied to every focus and the state is rebuilt inside-out.  A
    chain with a read-only optic cannot be modified. *)
Definition over (chain : CompositeOptic) (s : val) (f : val -> M val) : M val :=
  if forallb writable chain then over_chain chain s f
  else raise (CapabilityError "the optic cannot be modified").

(** Modelled from the spec: section 4.3 describes setting as modifying
    with the constant function; the method [set] of [optics.py] is
    missing. *)
Definition set (chain : CompositeOptic) (s : val) (v : val) : M val :=
  over chain s (fun _ => ret v).

(** Modelled from the spec: the associative append of the focus kind
    (section 4.3, [get_monoid]): numeric addition and concatenation. *)
Definition mappend (a b : val) : M val :=
  match a, b with
  | VInt x, VInt y => ret (VInt (x + y))
  | VStr x, VStr y => ret (VStr (x ++ y)%string)
  | VTuple x, VTuple y => ret (VTuple (x ++ y))
  | VRef x, VRef y =>
      xs <- read x ;; ys <- read y ;; l <- alloc (xs ++ ys) ;; ret (VRef l)
  | _, _ => raise (TypeError "no monoid for the focus")
  end.

(** Modelled from the spec: the foci merged from the first one on. *)
Fixpoint mconcat (a : val) (rest : list val) : M val :=
  match rest with
  | [] => ret a
  | b :: rest' => c <- mappend a b ;; mconcat c rest'
  end.

(** Modelled from the spec: [view] of section 4.2; the foci are merged
    with the append of the first focus's kind.  The spec leaves the case
    of no focus open; the model raises there. *)
Definition view (chain : CompositeOptic) (s : val) : M val :=
  l <- to_list_of chain s ;;
  match l with
  | [] => raise (TypeError "no focus to merge")
  | a :: rest => mconcat a rest
  end.

(** Modelled from the spec: reversal swaps the forward and backward
    directions of an Isomorphism (section 4.2, [re]). *)
Definition reverse1 (o : optic) : optic :=
  match o with
  | IsomorphismO forwards backwards => IsomorphismO backwards forwards
  | _ => o
  end.

(** Modelled from the spec: [re] of section 4.2; valid only when every
    optic of the chain is an Isomorphism or an Equality, it swaps the
    directions and reverses the chain end to end. *)
Definition re (chain : CompositeOptic) : M CompositeOptic :=
  if forallb reversible chain then ret (rev (map reverse1 chain))
  else raise (CapabilityError "the optic is not reversible").

(** Modelled from the spec: [compose] of section 4.2; the sequences are
    appended, and the composition fails when no operation can use the
    result (it can be neither read nor modified). *)
Definition compose (a b : CompositeOptic) : M CompositeOptic :=
  let c := a ++ b in
  if forallb readable c || forallb writable c then ret c
  else raise (CapabilityError "incompatible optic kinds").

(** ** The optics the front-end constructs *)

(** Modelled from the spec: the setter of item access, which rebuilds
    the collection (section 6, the rebuild hook): a copy of the state
    with the item replaced, the state itself being left as it is. *)
Definition setitem_immutable (state key v : val) : M val :=
  match state, key with
  | VTuple items, VInt k =>
      match position (List.length items) k with
      | Some i => ret (VTuple (update items i v))
      | None => raise (IndexError "tuple assignment index out of range")
      end
  | VRef l, VInt k =>
      items <- read l ;;
      l' <- alloc items ;;
      match position (List.length items) k with
      | Some i => write l' (update items i v) ;;; ret (VRef l')
      | None => raise (IndexError "list assignment index out of range")
      end
  | _, _ => raise (TypeError "object does not support item assignment")
  end.

(** Modelled from the spec: the setter of attribute access, a copy of
    the record with the attribute replaced. *)
Definition setattr_immutable (state : val) (name : string) (v : val) : M val :=
  match state with
  | VObj attrs =>
      match attr_get attrs name with
      | Some _ => ret (VObj (attr_set attrs name v))
      | None => raise (AttributeError name)
      end
  | _ => raise (AttributeError name)
  end.

(** Modelled from the spec: the identity composite, the empty sequence
    (section 3). *)
Definition TrivialIso : CompositeOptic := [].

(** Modelled from the spec: the plain item-access optic of section 4.3,
    of kind Lens. *)
Definition GetitemLens (key : val) : CompositeOptic :=
  [LensO (fun s => getitem s key) (fun s v => setitem_immutable s key v)].

(** Modelled from the spec: the get-or-zoom traversal of section 4.3; it
    follows the attribute.  The values of this model hold no accessor,
    so the zooming case does not arise. *)
Definition GetZoomAttrTraversal (name : string) : CompositeOptic :=
  [TraversalO
     (fun s => a <- getattr s name ;; ret [a])
     (fun s l => match l with
                 | [a] => setattr_immutable s name a
                 | _ => raise (ValueError "expected one focus")
                 end)].

(** Modelled from the spec: the traversal of the items [0] and [1]
    (section 8, the "both" scenario; docstring of [both_]). *)
Definition BothTraversal : CompositeOptic :=
  [TraversalO
     (fun s => a <- getitem s (VInt 0) ;; b <- getitem s (VInt 1) ;; ret [a; b])
     (fun s l => match l with
                 | [a; b] =>
                     s1 <- setitem_immutable s (VInt 0) a ;;
                     setitem_immutable s1 (VInt 1) b
                 | _ => raise (ValueError "expected two foci")
                 end)].

(** Modelled from the spec: the engine as an implementation of the
    interface that the front-end uses; [from_] is [re] (section 4.3,
    [flip]). *)
Definition Impl : optics.Impl :=
  {| optics.LensLike := CompositeOptic;
     optics.TrivialIso := TrivialIso;
     optics.GetitemLens := GetitemLens;
     optics.GetZoomAttrTraversal := GetZoomAttrTraversal;
     optics.compose := compose;
     optics.to_list_of := to_list_of;
     optics.over := over;
     optics.set := set;
     optics.view := view;
     optics.re := re;
     optics.from_ := re |}.

End engine.

(* ================================================================== *)
(** * Notions used to state the properties *)
(* ================================================================== *)

(** ** What a computation leaves untouched *)

(** Every object of [h0] is still there in [h], with the same items. *)
Definition preserves (h0 h : heap) : Prop :=
  forall k items, nth_error h0 k = Some items -> nth_error h k = Some items.

(** [l] is not the location of an object of [h0]. *)
Definition fresh_for (h0 : heap) (l : loc) : Prop := (List.length h0 <= l)%nat.

(** [m] keeps the property [I] of the store, whatever its outcome, and
    its result, if any, satisfies [Q]. *)
Definition keeps (I : heap -> Prop) {A} (m : M A) (Q : A -> Prop) : Prop :=
  forall h r h',
    I h -> m h = (r, h') -> I h' /\ (forall a, r = Ok a -> Q a).

(** [a] is not an object of [h0]: it is an immutable value or an object
    allocated after [h0]. *)
Definition not_in (h0 : heap) (a : val) : Prop :=
  match a with
  | VRef l => fresh_for h0 l
  | _ => True
  end.

(** Every object that [v] refers to, directly or inside tuples and
    records, has a location from [n] on. *)
Fixpoint new_val (n : nat) (v : val) : bool :=
  match v with
  | VRef l => (n <=? l)%nat
  | VTuple items => forallb (new_val n) items
  | VObj attrs => forallb (fun p => new_val n (snd p)) attrs
  | _ => true
  end.

(** The objects of [h] that are not objects of [h0] refer to such
    objects only: nothing of [h0] can be reached from them. *)
Definition closed_new (h0 h : heap) : Prop :=
  forall k items,
    fresh_for h0 k -> nth_error h k = Some items ->
    forallb (new_val (List.length h0)) items = true.

(** The objects of [h0] are preserved and the later ones are closed. *)
Definition separate (h0 h : heap) : Prop :=
  preserves h0 h /\ closed_new h0 h.

(** The copies recorded in a memo are not objects of [h0]. *)
Definition memo_new (h0 : heap) (m : memo) : Prop :=
  forall l l', memo_get m l = Some l' -> fresh_for h0 l'.

(** What a copy returns: a value made of new objects, and a memo of new
    objects. *)
Definition copied (h0 : heap) (r : val * memo) : Prop :=
  new_val (List.length h0) (fst r) = true /\ memo_new h0 (snd r).

(** ** Values without mutable parts *)

Fixpoint immutable (v : val) : bool :=
  match v with
  | VRef _ => false
  | VTuple items => forallb immutable items
  | VObj attrs => forallb (fun p => immutable (snd p)) attrs
  | _ => true
  end.

(** ** Equality of values *)

Fixpoint all2 {A} (f : A -> A -> bool) (l1 l2 : list A) : bool :=
  match l1, l2 with
  | [], [] => true
  | a :: r1, b :: r2 => f a b && all2 f r1 r2
  | _, _ => false
  end.

(** [a == b], for [a] in the store [h1] and [b] in the store [h2]:
    lists and tuples are equal when their items are, item by item.  The
    comparison goes [depth] levels down. *)
Fixpoint value_eqb (depth : nat) (h1 : heap) (a : val) (h2 : heap) (b : val)
  : bool :=
  match depth with
  | O => false
  | S d =>
      match a, b with
      | VNone, VNone => true
      | VNotImplemented, VNotImplemented => true
      | VStr x, VStr y => String.eqb x y
      | (VInt _ | VBool _), (VInt _ | VBool _) =>
          match as_int a, as_int b with
          | Some x, Some y => x =? y
          | _, _ => false
          end
      | VTuple xs, VTuple ys =>
          all2 (fun x y => value_eqb d h1 x h2 y) xs ys
      | VObj xs, VObj ys =>
          all2 (fun x y => String.eqb (fst x) (fst y) &&
                           value_eqb d h1 (snd x) h2 (snd y)) xs ys
      | VRef l1, VRef l2 =>
          match nth_error h1 l1, nth_error h2 l2 with
          | Some xs, Some ys =>
              all2 (fun x y => value_eqb d h1 x h2 y) xs ys
          | _, _ => false
          end
      | _, _ => false
      end
  end.

(** The optic of [lens()[k1][k2]...], item access after item access. *)
Definition item_chain (keys : list val) : engine.CompositeOptic :=
  flat_map engine.GetitemLens keys.

(** ** Well-behaved optics *)

(** [f] returns each of the values of [l] as it is, without touching the
    store [h]. *)
Definition acts_as_identity (f : val -> M val) (l : list val) (h : heap) : Prop :=
  forall a, In a l -> f a h = (Ok a, h).

(** An optic is well behaved on the states that satisfy [P] when it can
    be modified and, on every such state whose foci it resolves, the foci
    satisfy [P] again, resolving them leaves the store alone, and
    rebuilding the state around unchanged foci gives the state back. *)
Definition well_behaved (P : val -> Prop) (o : engine.optic) : Prop :=
  engine.writable o = true /\
  forall s h l h1,
    P s -> engine.foci1 o s h = (Ok l, h1) ->
    h1 = h /\ Forall P l /\
    forall f, acts_as_identity f l h -> engine.over1 o s f h = (Ok s, h).

(** An accessor over the modelled engine. *)
Definition accessor (s : val) (chain : engine.CompositeOptic) : @Lens engine.Impl :=
  mkLens (O:=engine.Impl) s chain.

(** ** Reversible chains *)

(** The forward function of a reversible optic, and of a chain of them
    from the outermost to the innermost. *)
Definition forward1 (o : engine.optic) (s : val) : M val :=
  match o with
  | engine.IsomorphismO forwards _ => forwards s
  | _ => ret s
  end.

Fixpoint run_forwards (chain : engine.CompositeOptic) (s : val) : M val :=
  match chain with
  | [] => ret s
  | o :: rest => a <- forward1 o s ;; run_forwards rest a
  end.

(** The backward function of a reversible optic, and of a chain of them
    from the innermost to the outermost. *)
Definition backward1 (o : engine.optic) (a : val) : M val :=
  match o with
  | engine.IsomorphismO _ backwards => backwards a
  | _ => ret a
  end.

Fixpoint run_backwards (chain : engine.CompositeOptic) (focus : val) : M val :=
  match chain with
  | [] => ret focus
  | o :: rest => a <- run_backwards rest focus ;; backward1 o a
  end.

(** ** Optics of the docstrings *)

(** [lens().f_(abs)]: the optic [Getter(abs)], which cannot be used to
    set or modify values. *)
Definition abs_getter : engine.CompositeOptic :=
  [engine.GetterO (fun s => call_method s "__abs__" [] [])].

Fixpoint sum_ints (zs : list Z) : Z :=
  match zs with
  | [] => 0
  | z :: rest => z + sum_ints rest
  end.

Definition read_ints (state : val) : M (list Z) :=
  items <- iter_items state ;;
  match as_ints items with
  | Some zs => ret zs
  | None => raise (TypeError "unsupported operand type")
  end.

(** The getter of the docstring of [getter_setter_], the average of a
    list: [sum(state) // len(state)]. *)
Definition average_getter (state : val) : M val :=
  zs <- read_ints state ;;
  match zs with
  | [] => raise (ZeroDivisionError "integer division or modulo by zero")
  | _ => ret (VInt (sum_ints zs / Z.of_nat (List.length zs)))
  end.

(** The setter of the same docstring, which sets the average by changing
    the final value:
    [target_sum = value * len(old_state)], [prefix = old_state[:-1]],
    [prefix + [target_sum - sum(prefix)]]. *)
Definition average_setter (old_state value : val) : M val :=
  zs <- read_ints old_state ;;
  match value with
  | VInt v =>
      let target_sum := v * Z.of_nat (List.length zs) in
      let prefix := removelast zs in
      l <- alloc (map VInt (prefix ++ [target_sum - sum_ints prefix])) ;;
      ret (VRef l)
  | _ => raise (TypeError "unsupported operand type")
  end.

Definition average_lens : engine.CompositeOptic :=
  [engine.LensO average_getter average_setter].

(** The state of the docstring of [call_mut]: [[[3, 1, 2], [5, 4]]], with
    the outer list at location 2. *)
Definition nested_lists : heap :=
  [[VInt 3; VInt 1; VInt 2]; [VInt 5; VInt 4]; [VRef 0%nat; VRef 1%nat]].

(** The state of the scenarios of the specification: the list
    [[1, 2, 3]] at location 0. *)
Definition one_two_three : heap := [[VInt 1; VInt 2; VInt 3]].


(** ** Methods and operators *)



(* ================================================================== *)
(** * Properties of the front-end, for any optics engine *)
(* ================================================================== *)

Section FacadeProperties.
Context {O : optics.Impl}.

Lemma bindM_ret {A B} (a : A) (k : A -> M B) (h : heap) :
  bindM (ret a) k h = k a h.
Proof. reflexivity. Qed.

Lemma bindM_ret_eq {A B} (a : A) (k : A -> M B) : bindM (ret a) k = k a.
Proof. reflexivity. Qed.

Lemma bindM_raise {A B} (e : exn) (k : A -> M B) (h : heap) :
  bindM (raise e) k h = (Raise e, h).
Proof. reflexivity. Qed.

Lemma is_None_true (v : val) : is_None v = true <-> v = VNone.
Proof. destruct v; simpl; split; intro H; congruence. Qed.

Lemma is_None_false (v : val) : is_None v = false <-> v <> VNone.
Proof. destruct v; simpl; split; intro H; congruence. Qed.

(** ** Binding *)

Lemma bind_unbound (self : Lens) (s : val) (h : heap) :
  state self = VNone ->
  bind self s h = (Ok (mkLens s (lens self)), h).
Proof.
  intro Hs. unfold bind, _assert_unbound. rewrite Hs. reflexivity.
Qed.

Lemma bind_bound (self : Lens) (s : val) (h : heap) :
  state self <> VNone ->
  bind self s h = (Raise (ValueError "Lens.bind requires an unbound lens"), h).
Proof.
  intro Hs. apply is_None_false in Hs.
  unfold bind, _assert_unbound. rewrite Hs. reflexivity.
Qed.

Lemma rebind_None (self : Lens) (h : heap) :
  rebind self VNone h = (Ok self, h).
Proof. reflexivity. Qed.

Lemma assert_bound_unbound (self : Lens) (name : string) (h : heap) :
  state self = VNone ->
  _assert_bound self name h =
  (Raise (ValueError (name ++ " requires a bound lens")%string), h).
Proof. intro Hs. unfold _assert_bound. rewrite Hs. reflexivity. Qed.

Lemma assert_bound_bound (self : Lens) (name : string) (h : heap) :
  state self <> VNone -> _assert_bound self name h = (Ok tt, h).
Proof.
  intro Hs. apply is_None_false in Hs.
  unfold _assert_bound. rewrite Hs. reflexivity.
Qed.

(** ** The query methods on an accessor without a state *)

(** Every query method starts with the same two steps; when no state
    is given and none is bound, the second one raises. *)
Ltac unbound_query Hs :=
  unfold bindM; simpl default_arg; rewrite rebind_None;
  rewrite (assert_bound_unbound _ _ _ Hs); reflexivity.

Lemma get_unbound (self : Lens) (h : heap) :
  state self = VNone ->
  get self None h = (Raise (ValueError "Lens.get requires a bound lens"), h).
Proof. intro Hs. unfold get. unbound_query Hs. Qed.

Lemma get_all_unbound (self : Lens) (h : heap) :
  state self = VNone ->
  get_all self None h =
  (Raise (ValueError "Lens.get_all requires a bound lens"), h).
Proof. intro Hs. unfold get_all. unbound_query Hs. Qed.

Lemma get_monoid_unbound (self : Lens) (h : heap) :
  state self = VNone ->
  get_monoid self None h =
  (Raise (ValueError "Lens.get_monoid requires a bound lens"), h).
Proof. intro Hs. unfold get_monoid. unbound_query Hs. Qed.

Lemma set_unbound (self : Lens) (v : val) (h : heap) :
  state self = VNone ->
  set self v None h = (Raise (ValueError "Lens.set requires a bound lens"), h).
Proof. intro Hs. unfold set. unbound_query Hs. Qed.

Lemma modify_unbound (self : Lens) (f : val -> M val) (h : heap) :
  state self = VNone ->
  modify self f None h =
  (Raise (ValueError "Lens.modify requires a bound lens"), h).
Proof. intro Hs. unfold modify. unbound_query Hs. Qed.

Lemma construct_unbound (self : Lens) (h : heap) :
  state self = VNone ->
  construct self None h =
  (Raise (ValueError "Lens.construct requires a bound lens"), h).
Proof. intro Hs. unfold construct. unbound_query Hs. Qed.

(** ** The query methods on a bound accessor *)

Lemma get_all_bound (self : Lens) (h : heap) :
  state self <> VNone ->
  get_all self None h = optics.to_list_of (lens self) (state self) h.
Proof.
  intro Hs. unfold get_all, bindM. simpl default_arg. rewrite rebind_None.
  rewrite (assert_bound_bound _ _ _ Hs). reflexivity.
Qed.

Lemma set_bound (self : Lens) (v : val) (h : heap) :
  state self <> VNone ->
  set self v None h = optics.set (lens self) (state self) v h.
Proof.
  intro Hs. unfold set, bindM. simpl default_arg. rewrite rebind_None.
  rewrite (assert_bound_bound _ _ _ Hs). reflexivity.
Qed.

Lemma modify_bound (self : Lens) (f : val -> M val) (h : heap) :
  state self <> VNone ->
  modify self f None h = optics.over (lens self) (state self) f h.
Proof.
  intro Hs. unfold modify, bindM. simpl default_arg. rewrite rebind_None.
  rewrite (assert_bound_bound _ _ _ Hs). reflexivity.
Qed.

(** When [get_all] returns a list, [get] takes its first item: both
    start with the same steps and read the same foci. *)
Lemma get_after_get_all (self : Lens) (st : option val) (h h' : heap)
    (l : list val) :
  get_all self st h = (Ok l, h') ->
  get self st h = first_item l h'.
Proof.
  unfold get, get_all, bindM.
  destruct (rebind self (default_arg st VNone) h) as [[self'|e] h1];
    [|discriminate].
  unfold _assert_bound.
  destruct (is_None (state self')); unfold raise, ret; [discriminate|].
  intros ->. reflexivity.
Qed.

End FacadeProperties.

(** ** Strings: a name that starts with a prefix is the prefix followed
    by the slice after it *)

Lemma substring_all (s : string) : substring 0 (String.length s) s = s.
Proof.
  induction s as [|c s IH]; simpl; [reflexivity|]. now rewrite IH.
Qed.

Lemma startswith_slice (p s : string) :
  startswith s p = true ->
  s = (p ++ slice_from (String.length p) s)%string.
Proof.
  unfold startswith, slice_from. revert s.
  induction p as [|c p IH]; intros s H; simpl.
  - rewrite Nat.sub_0_r. now rewrite substring_all.
  - destruct s as [|d s]; simpl in H; [discriminate|].
    destruct (Ascii.ascii_dec c d) as [->|]; [|discriminate].
    simpl. f_equal. now apply IH.
Qed.

(** ** The class namespace after [_add_extra_methods] *)

Section Namespace.
Context {O : optics.Impl}.

Lemma class_get_setattr (cls : namespace) (k name : string) (m : member) :
  class_get (setattr cls k m) name =
  if String.eqb k name then Some m else class_get cls name.
Proof.
  induction cls as [|[k' x] rest IH]; simpl.
  - reflexivity.
  - destruct (String.eqb k' k) eqn:E; simpl.
    + apply String.eqb_eq in E; subst k'.
      destruct (String.eqb k name); reflexivity.
    + rewrite IH. destruct (String.eqb k' name) eqn:E'; [|reflexivity].
      apply String.eqb_eq in E'; subst k'.
      now rewrite String.eqb_sym, E.
Qed.

Lemma class_get_fold (dunders : list string) (cls : namespace) (name : string) :
  class_get
    (fold_left (fun c d => setattr c d (Operation (_carry_op d))) dunders cls)
    name =
  if existsb (String.eqb name) dunders
  then Some (Operation (_carry_op name))
  else class_get cls name.
Proof.
  revert cls. induction dunders as [|d rest IH]; intro cls; simpl.
  - reflexivity.
  - rewrite IH, class_get_setattr.
    destruct (existsb (String.eqb name) rest); simpl.
    + now rewrite orb_true_r.
    + rewrite orb_false_r, (String.eqb_sym name d).
      destruct (String.eqb d name) eqn:E; [|reflexivity].
      apply String.eqb_eq in E. now subst.
Qed.

Lemma In_existsb (name : string) (l : list string) :
  In name l -> existsb (String.eqb name) l = true.
Proof.
  intro H. apply existsb_exists. exists name. split; [assumption|].
  apply String.eqb_refl.
Qed.

End Namespace.

(* ================================================================== *)
(** * Properties of the modelled engine *)
(* ================================================================== *)

Section EngineProperties.

(** ** Reversible chains *)

Lemma reversible_readable (o : engine.optic) :
  engine.reversible o = true -> engine.readable o = true.
Proof. destruct o; cbv; congruence. Qed.

Lemma reversible_reverse1 (o : engine.optic) :
  engine.reversible (engine.reverse1 o) = engine.reversible o.
Proof. destruct o; reflexivity. Qed.

Lemma forward1_reverse1 (o : engine.optic) (a : val) :
  forward1 (engine.reverse1 o) a = backward1 o a.
Proof. destruct o; reflexivity. Qed.

Lemma forallb_reversible_reversed (chain : engine.CompositeOptic) :
  forallb engine.reversible (rev (map engine.reverse1 chain)) =
  forallb engine.reversible chain.
Proof.
  induction chain as [|o rest IH]; simpl; [reflexivity|].
  rewrite forallb_app, IH. simpl.
  rewrite reversible_reverse1, andb_true_r. apply andb_comm.
Qed.

Lemma forallb_reversible_readable (chain : engine.CompositeOptic) :
  forallb engine.reversible chain = true ->
  forallb engine.readable chain = true.
Proof.
  rewrite !forallb_forall. intros H o Hin.
  apply reversible_readable. now apply H.
Qed.

(** The foci of a reversible chain: the one value reached by running
    the forward functions. *)
Lemma foci_reversible (chain : engine.CompositeOptic) :
  forallb engine.reversible chain = true ->
  forall s h,
    engine.foci chain s h =
    bindM (run_forwards chain s) (fun a => ret [a]) h.
Proof.
  induction chain as [|o rest IH]; intros Hrev s h.
  - reflexivity.
  - simpl in Hrev. apply andb_true_iff in Hrev as [Ho Hrest].
    specialize (IH Hrest).
    destruct o; try discriminate; simpl; unfold bindM; simpl.
    + unfold bindM. rewrite IH. unfold bindM, ret.
      destruct (run_forwards rest s h) as [[a|e] h1]; reflexivity.
    + destruct (forwards s h) as [[a|e] h1]; [|reflexivity].
      unfold ret at 1. simpl. unfold bindM. rewrite IH. unfold bindM, ret.
      destruct (run_forwards rest a h1) as [[b|e] h2]; reflexivity.
Qed.

Lemma run_forwards_app (c1 c2 : engine.CompositeOptic) (s : val) (h : heap) :
  run_forwards (c1 ++ c2) s h = bindM (run_forwards c1 s) (run_forwards c2) h.
Proof.
  revert s h. induction c1 as [|o rest IH]; intros s h; simpl.
  - reflexivity.
  - unfold bindM. destruct (forward1 o s h) as [[a|e] h1]; [|reflexivity].
    rewrite IH. reflexivity.
Qed.

(** Running the reversed chain forwards is running the chain
    backwards. *)
Lemma run_forwards_reversed (chain : engine.CompositeOptic) (x : val) (h : heap) :
  run_forwards (rev (map engine.reverse1 chain)) x h = run_backwards chain x h.
Proof.
  revert x h. induction chain as [|o rest IH]; intros x h; simpl.
  - reflexivity.
  - rewrite run_forwards_app. unfold bindM. rewrite IH.
    destruct (run_backwards rest x h) as [[a|e] h1]; [|reflexivity].
    simpl. unfold bindM. rewrite forward1_reverse1.
    destruct (backward1 o a h1) as [[b|e] h2]; reflexivity.
Qed.

Lemma re_reversible (chain : engine.CompositeOptic) (h : heap) :
  forallb engine.reversible chain = true ->
  engine.re chain h = (Ok (rev (map engine.reverse1 chain)), h).
Proof. intro H. unfold engine.re. rewrite H. reflexivity. Qed.

Lemma re_not_reversible (chain : engine.CompositeOptic) (h : heap) :
  forallb engine.reversible chain = false ->
  engine.re chain h =
  (Raise (CapabilityError "the optic is not reversible"), h).
Proof. intro H. unfold engine.re. rewrite H. reflexivity. Qed.

(** Viewing a focus through the reversed chain runs the backward
    functions from the innermost optic to the outermost. *)
Lemma view_reversed (chain : engine.CompositeOptic) (focus : val) (h : heap) :
  forallb engine.reversible chain = true ->
  engine.view (rev (map engine.reverse1 chain)) focus h =
  run_backwards chain focus h.
Proof.
  intro Hrev.
  assert (Hrev' : forallb engine.reversible (rev (map engine.reverse1 chain)) = true)
    by now rewrite forallb_reversible_reversed.
  unfold engine.view, engine.to_list_of.
  rewrite (forallb_reversible_readable _ Hrev').
  unfold bindM at 1. rewrite (foci_reversible _ Hrev').
  unfold bindM. rewrite run_forwards_reversed.
  destruct (run_backwards chain focus h) as [[a|e] h1]; reflexivity.
Qed.

(** ** The identity law along a chain *)

Lemma mapM_foci_identity (P : val -> Prop) (rest : engine.CompositeOptic) :
  (forall s h l h', P s -> engine.foci rest s h = (Ok l, h') ->
     h' = h /\ engine.over_chain rest s (fun a => ret a) h = (Ok s, h)) ->
  forall l h ls h',
    Forall P l ->
    mapM (engine.foci rest) l h = (Ok ls, h') ->
    h' = h /\
    acts_as_identity (fun a => engine.over_chain rest a (fun a => ret a)) l h.
Proof.
  intro IH. induction l as [|a l IHl]; intros h ls h' HP Hm.
  - simpl in Hm. inversion Hm; subst. split; [reflexivity|]. intros a [].
  - inversion HP as [|? ? Pa Pl]; subst.
    simpl in Hm. unfold bindM in Hm.
    destruct (engine.foci rest a h) as [[la|e] ha] eqn:Ea; [|discriminate].
    destruct (IH _ _ _ _ Pa Ea) as [-> Hover].
    destruct (mapM (engine.foci rest) l h) as [[ls'|e] hl] eqn:El;
      [|discriminate].
    destruct (IHl _ _ _ Pl El) as [-> Hrest].
    inversion Hm; subst. split; [reflexivity|].
    intros b [<-|Hb]; [exact Hover|now apply Hrest].
Qed.

(** Modifying with the identity function through a chain of
    well-behaved optics gives the state back, whenever the foci of the
    chain resolve. *)
Lemma over_chain_identity (P : val -> Prop) (chain : engine.CompositeOptic) :
  Forall (well_behaved P) chain ->
  forall s h l h',
    P s -> engine.foci chain s h = (Ok l, h') ->
    h' = h /\ engine.over_chain chain s (fun a => ret a) h = (Ok s, h).
Proof.
  induction chain as [|o rest IH]; intros Hwb s h l h' Ps Hf.
  - simpl in Hf. inversion Hf; subst. split; reflexivity.
  - inversion Hwb as [|? ? [_ Ho] Hrest]; subst.
    specialize (IH Hrest).
    simpl in Hf. unfold bindM in Hf.
    destruct (engine.foci1 o s h) as [[l1|e] h1] eqn:E1; [|discriminate].
    destruct (Ho _ _ _ _ Ps E1) as [-> [Pl1 Hlaw]].
    destruct (mapM (engine.foci rest) l1 h) as [[ls|e] h2] eqn:E2;
      [|discriminate].
    destruct (@mapM_foci_identity P rest IH l1 h ls h2 Pl1 E2) as [-> Hid].
    inversion Hf; subst. split; [reflexivity|].
    simpl. now apply Hlaw.
Qed.

Lemma forallb_writable (P : val -> Prop) (chain : engine.CompositeOptic) :
  Forall (well_behaved P) chain -> forallb engine.writable chain = true.
Proof.
  intro H. apply forallb_forall. intros o Hin.
  rewrite Forall_forall in H. now destruct (H _ Hin).
Qed.

(** ** Optics that are well behaved *)

Lemma well_behaved_equality (P : val -> Prop) :
  well_behaved P engine.EqualityO.
Proof.
  split; [reflexivity|]. intros s h l h1 Ps Hf.
  simpl in Hf. inversion Hf; subst.
  split; [reflexivity|]. split; [now constructor|].
  intros f Hid. simpl. apply Hid. now left.
Qed.

(** A getter and a setter that obey the get-put law make a
    well-behaved Lens. *)
Lemma well_behaved_lens (P : val -> Prop) (getter : val -> M val)
    (setter : val -> val -> M val) :
  (forall s h a h1, P s -> getter s h = (Ok a, h1) ->
     h1 = h /\ P a /\ setter s a h = (Ok s, h)) ->
  well_behaved P (engine.LensO getter setter).
Proof.
  intro Hlaw. split; [reflexivity|]. intros s h l h1 Ps Hf.
  simpl in Hf. unfold bindM in Hf.
  destruct (getter s h) as [[a|e] h2] eqn:Eg; [|discriminate].
  inversion Hf; subst.
  destruct (Hlaw _ _ _ _ Ps Eg) as [-> [Pa Hset]].
  split; [reflexivity|]. split; [now repeat constructor|].
  intros f Hid. simpl. unfold bindM. rewrite Eg.
  rewrite (Hid a (or_introl eq_refl)). exact Hset.
Qed.

(** A pair of functions of which the second undoes the first makes a
    well-behaved Isomorphism. *)
Lemma well_behaved_isomorphism (P : val -> Prop)
    (forwards backwards : val -> M val) :
  (forall s h a h1, P s -> forwards s h = (Ok a, h1) ->
     h1 = h /\ P a /\ backwards a h = (Ok s, h)) ->
  well_behaved P (engine.IsomorphismO forwards backwards).
Proof.
  intro Hlaw. split; [reflexivity|]. intros s h l h1 Ps Hf.
  simpl in Hf. unfold bindM in Hf.
  destruct (forwards s h) as [[a|e] h2] eqn:Eg; [|discriminate].
  inversion Hf; subst.
  destruct (Hlaw _ _ _ _ Ps Eg) as [-> [Pa Hback]].
  split; [reflexivity|]. split; [now repeat constructor|].
  intros f Hid. simpl. unfold bindM. rewrite Eg.
  rewrite (Hid a (or_introl eq_refl)). exact Hback.
Qed.

Lemma mapM_identity (f : val -> M val) (l : list val) (h : heap) :
  acts_as_identity f l h -> mapM f l h = (Ok l, h).
Proof.
  induction l as [|a l IH]; intro Hid; [reflexivity|].
  cbn [mapM]. unfold bindM. rewrite (Hid a (or_introl eq_refl)).
  rewrite IH; [reflexivity|]. intros b Hb. apply Hid. now right.
Qed.

(** A prism whose [pack] undoes its [unpack] is well behaved. *)
Lemma well_behaved_prism (P : val -> Prop) (unpack : val -> M (option val))
    (pack : val -> M val) :
  (forall s h m h1, P s -> unpack s h = (Ok m, h1) ->
     h1 = h /\
     match m with
     | Some a => P a /\ pack a h = (Ok s, h)
     | None => True
     end) ->
  well_behaved P (engine.PrismO unpack pack).
Proof.
  intro Hlaw. split; [reflexivity|]. intros s h l h1 Ps Hf.
  simpl in Hf. unfold bindM in Hf.
  destruct (unpack s h) as [[m|e] h2] eqn:Eu; [|discriminate].
  inversion Hf; subst.
  destruct (Hlaw _ _ _ _ Ps Eu) as [-> Hm].
  split; [reflexivity|]. destruct m as [a|].
  - destruct Hm as [Pa Hpack]. split; [now repeat constructor|].
    intros f Hid. simpl. unfold bindM. rewrite Eu.
    rewrite (Hid a (or_introl eq_refl)). exact Hpack.
  - split; [constructor|]. intros f Hid. simpl. unfold bindM.
    now rewrite Eu.
Qed.

(** A traversal whose builder gives the state back from its own foci is
    well behaved. *)
Lemma well_behaved_traversal (P : val -> Prop) (folder : val -> M (list val))
    (builder : val -> list val -> M val) :
  (forall s h l h1, P s -> folder s h = (Ok l, h1) ->
     h1 = h /\ Forall P l /\ builder s l h = (Ok s, h)) ->
  well_behaved P (engine.TraversalO folder builder).
Proof.
  intro Hlaw. split; [reflexivity|]. intros s h l h1 Ps Hf.
  simpl in Hf. destruct (Hlaw _ _ _ _ Ps Hf) as [-> [Pl Hbuild]].
  split; [reflexivity|]. split; [assumption|].
  intros f Hid. simpl. unfold bindM. rewrite Hf.
  now rewrite (mapM_identity Hid).
Qed.

Lemma update_nth_error {A} (l : list A) (i : nat) (a : A) :
  nth_error l i = Some a -> update l i a = l.
Proof.
  revert i. induction l as [|x l IH]; intros [|i] H; simpl in *;
    try discriminate.
  - now inversion H.
  - f_equal. now apply IH.
Qed.

(** Item access is a well-behaved Lens on tuples of immutable values. *)
Lemma well_behaved_getitem (key : val) :
  Forall (well_behaved (fun v => immutable v = true)) (engine.GetitemLens key).
Proof.
  constructor; [|constructor]. apply well_behaved_lens.
  intros s h a h1 Ps Hg.
  destruct s; simpl in Ps; try discriminate;
    try (simpl in Hg; discriminate).
  destruct key; try (simpl in Hg; discriminate).
  simpl in Hg. simpl.
  destruct (position (List.length items) z) as [i|]; [|discriminate].
  destruct (nth_error items i) as [x|] eqn:En; [|discriminate].
  inversion Hg; subst. split; [reflexivity|]. split.
  - rewrite forallb_forall in Ps. apply Ps. eapply nth_error_In; eassumption.
  - now rewrite (update_nth_error _ _ En).
Qed.

Lemma item_chain_cons (key : val) (keys : list val) :
  item_chain (key :: keys) =
  engine.LensO (fun s => getitem s key)
               (fun s v => engine.setitem_immutable s key v)
  :: item_chain keys.
Proof. reflexivity. Qed.

End EngineProperties.

(** ** [construct] on an accessor with and without a state *)

Section Construct.
Context {O : optics.Impl}.

Lemma construct_unbound_focus (self : Lens) (focus : val) (h : heap) :
  state self = VNone -> focus <> VNone ->
  construct self (Some focus) h =
  bindM (optics.re (lens self)) (fun r => optics.view r focus) h.
Proof.
  intros Hs Hf. apply is_None_false in Hf.
  unfold construct, rebind, default_arg. rewrite Hf. simpl negb.
  unfold bindM at 1. rewrite (bind_unbound _ _ h Hs).
  unfold bindM at 1.
  rewrite assert_bound_bound by (simpl; now apply is_None_false).
  reflexivity.
Qed.

Lemma construct_bound_focus (self : Lens) (focus : val) (h : heap) :
  state self <> VNone -> focus <> VNone ->
  construct self (Some focus) h =
  (Raise (ValueError "Lens.bind requires an unbound lens"), h).
Proof.
  intros Hs Hf. apply is_None_false in Hf.
  unfold construct, rebind, default_arg. rewrite Hf. simpl negb.
  unfold bindM. now rewrite (bind_bound _ _ h Hs).
Qed.

Lemma construct_bound_no_focus (self : Lens) (h : heap) :
  state self <> VNone ->
  construct self None h =
  bindM (optics.re (lens self)) (fun r => optics.view r (state self)) h.
Proof.
  intro Hs. unfold construct, default_arg, bindM.
  rewrite rebind_None. now rewrite (assert_bound_bound _ _ h Hs).
Qed.

End Construct.

(* ================================================================== *)
(** * What [call_mut] does to the store *)
(* ================================================================== *)

Section StoreProperties.

Lemma preserves_refl (h : heap) : preserves h h.
Proof. intros k items H. exact H. Qed.

Lemma preserves_trans (h0 h1 h2 : heap) :
  preserves h0 h1 -> preserves h1 h2 -> preserves h0 h2.
Proof. intros H1 H2 k items H. apply H2, H1, H. Qed.

Lemma preserves_length (h0 h : heap) :
  preserves h0 h -> (List.length h0 <= List.length h)%nat.
Proof.
  intro H. destruct (Nat.le_gt_cases (List.length h0) (List.length h)) as [|Hlt];
    [assumption|].
  destruct (nth_error h0 (List.length h)) as [items|] eqn:E.
  - apply H in E.
    assert (nth_error h (List.length h) = None)
      by (apply nth_error_None; lia).
    congruence.
  - apply nth_error_None in E. lia.
Qed.

Lemma preserves_alloc (h0 h : heap) (items : list val) :
  preserves h0 h -> preserves h0 (h ++ [items]).
Proof.
  intros H k x E. apply H in E. rewrite nth_error_app1; [assumption|].
  apply nth_error_Some. congruence.
Qed.

Lemma nth_error_update_other {A} (l : list A) (i k : nat) (a : A) :
  k <> i -> nth_error (update l i a) k = nth_error l k.
Proof.
  revert i k. induction l as [|x l IH]; intros [|i] [|k] H; simpl;
    try reflexivity; try congruence.
  apply IH. congruence.
Qed.

Lemma preserves_update (h0 h : heap) (l : loc) (items : list val) :
  preserves h0 h -> fresh_for h0 l -> preserves h0 (update h l items).
Proof.
  intros H Hl k x E. rewrite nth_error_update_other; [now apply H|].
  assert (k < List.length h0)%nat by (apply nth_error_Some; congruence).
  unfold fresh_for in Hl. lia.
Qed.

End StoreProperties.

(** ** Rules for [keeps] *)

Section KeepsRules.

Variable I : heap -> Prop.

Lemma keeps_ret {A} (a : A) (Q : A -> Prop) : Q a -> keeps I (ret a) Q.
Proof.
  intros HQ h r h' Hp E. inversion E; subst. split; [assumption|].
  intros b Hb. inversion Hb; subst. assumption.
Qed.

Lemma keeps_ret_True {A} (a : A) : keeps I (ret a) (fun _ => True).
Proof. now apply keeps_ret. Qed.

Lemma keeps_raise {A} (e : exn) (Q : A -> Prop) : keeps I (raise e) Q.
Proof.
  intros h r h' Hp E. inversion E; subst. split; [assumption|].
  intros b Hb. discriminate.
Qed.

Lemma keeps_bind {A B} (m : M A) (k : A -> M B) (Q : A -> Prop)
    (R : B -> Prop) :
  keeps I m Q -> (forall a, Q a -> keeps I (k a) R) ->
  keeps I (bindM m k) R.
Proof.
  intros Hm Hk h r h' Hp E. unfold bindM in E.
  destruct (m h) as [[a|e] h1] eqn:Em.
  - destruct (Hm _ _ _ Hp Em) as [Hp1 HQ].
    exact (Hk a (HQ a eq_refl) _ _ _ Hp1 E).
  - destruct (Hm _ _ _ Hp Em) as [Hp1 _]. inversion E; subst.
    split; [assumption|]. intros b Hb. discriminate.
Qed.

Lemma keeps_weaken {A} (m : M A) (Q R : A -> Prop) :
  keeps I m Q -> (forall a, Q a -> R a) -> keeps I m R.
Proof.
  intros Hm HQR h r h' Hp E. destruct (Hm _ _ _ Hp E) as [Hp' HQ].
  split; [assumption|]. intros a Ha. apply HQR, HQ, Ha.
Qed.

Lemma keeps_read (l : loc) : keeps I (read l) (fun _ => True).
Proof.
  intros h r h' Hp E. unfold read in E.
  destruct (nth_error h l); inversion E; subst; split; auto.
Qed.

Lemma keeps_int_method (a : Z) (name : string) (args : list val) (kw : kwargs) :
  keeps I (int_method a name args kw) (fun _ => True).
Proof.
  intros h r h' Hp E. unfold int_method in E. inversion E; subst.
  split; auto.
Qed.

Lemma keeps_str_method (s : string) (name : string) (args : list val)
    (kw : kwargs) :
  keeps I (str_method s name args kw) (fun _ => True).
Proof.
  intros h r h' Hp E. unfold str_method in E. inversion E; subst.
  split; auto.
Qed.

Lemma keeps_bool_method (b : bool) (name : string) (args : list val)
    (kw : kwargs) :
  keeps I (bool_method b name args kw) (fun _ => True).
Proof.
  unfold bool_method.
  destruct (assoc name bool_binary_methods) as [method|];
    [|apply keeps_int_method].
  destruct args as [|[] [|]]; try apply keeps_int_method.
  destruct kw; [apply keeps_ret_True|apply keeps_int_method].
Qed.

End KeepsRules.

(** ** What the run time does to the objects that exist *)

Section Preservation.

Variable h0 : heap.

Lemma keeps_alloc (items : list val) : keeps (preserves h0) (alloc items) (fresh_for h0).
Proof.
  intros h r h' Hp E. unfold alloc in E. inversion E; subst. split.
  - now apply preserves_alloc.
  - intros a Ha. inversion Ha; subst. now apply preserves_length.
Qed.

Lemma keeps_write (l : loc) (items : list val) :
  fresh_for h0 l -> keeps (preserves h0) (write l items) (fun _ => True).
Proof.
  intros Hl h r h' Hp E. unfold write in E.
  destruct (nth_error h l); inversion E; subst; split; auto.
  now apply preserves_update.
Qed.

Ltac keeps_step :=
  match goal with
  | |- keeps _ (ret _) _ => apply keeps_ret_True
  | |- keeps _ (raise _) _ => apply keeps_raise
  | |- keeps _ (read _) _ => apply keeps_read
  | |- keeps _ (alloc _) _ => apply keeps_alloc
  | |- keeps _ (write _ _) _ => apply keeps_write; assumption
  | |- keeps _ (bindM _ _) _ => eapply keeps_bind; [|intros]
  | |- keeps _ (if ?b then _ else _) _ => destruct b
  | |- keeps _ (match ?x with _ => _ end) _ => destruct x
  end.

Lemma keeps_truthy (v : val) : keeps (preserves h0) (truthy v) (fun _ => True).
Proof. destruct v; simpl; repeat keeps_step. Qed.

Lemma keeps_iter_items (v : val) : keeps (preserves h0) (iter_items v) (fun _ => True).
Proof. destruct v; simpl; repeat keeps_step. Qed.

(** A method of a list allocated after [h0] writes to that list
    only. *)
Lemma keeps_list_method (l : loc) (name : string) (args : list val)
    (kw : kwargs) :
  fresh_for h0 l -> keeps (preserves h0) (list_method l name args kw) (fun _ => True).
Proof.
  intro Hl. unfold list_method.
  eapply keeps_bind; [apply keeps_read|intros items _].
  repeat first [apply keeps_iter_items | keeps_step].
Qed.

Lemma keeps_call_method (a : val) (name : string) (args : list val)
    (kw : kwargs) :
  not_in h0 a -> keeps (preserves h0) (call_method a name args kw) (fun _ => True).
Proof.
  intro Ha. destruct a; simpl;
    try apply keeps_raise; try apply keeps_int_method;
    try apply keeps_bool_method; try apply keeps_str_method.
  now apply keeps_list_method.
Qed.

Lemma keeps_copy_copy (a : val) : keeps (preserves h0) (copy_copy a) (not_in h0).
Proof.
  destruct a; simpl; try (apply keeps_ret; exact I).
  eapply keeps_bind; [apply keeps_read|intros items _].
  eapply keeps_bind; [apply keeps_alloc|intros l' Hl'].
  apply keeps_ret. exact Hl'.
Qed.

(** ** [deepcopy] *)

Lemma keeps_deepcopy_items (rec : memo -> val -> M (val * memo)) :
  (forall m x, keeps (preserves h0) (rec m x) (fun _ => True)) ->
  forall items m, keeps (preserves h0) (deepcopy_items rec m items) (fun _ => True).
Proof.
  intro Hrec. induction items as [|a rest IH]; intro m; simpl.
  - apply keeps_ret. exact I.
  - eapply keeps_bind; [apply Hrec|intros r _].
    eapply keeps_bind; [apply IH|intros rs _].
    apply keeps_ret. exact I.
Qed.

Lemma keeps_deepcopy_attrs (rec : memo -> val -> M (val * memo)) :
  (forall m x, keeps (preserves h0) (rec m x) (fun _ => True)) ->
  forall attrs m, keeps (preserves h0) (deepcopy_attrs rec m attrs) (fun _ => True).
Proof.
  intro Hrec. induction attrs as [|[k a] rest IH]; intro m; simpl.
  - apply keeps_ret. exact I.
  - eapply keeps_bind; [apply Hrec|intros r _].
    eapply keeps_bind; [apply IH|intros rs _].
    apply keeps_ret. exact I.
Qed.

Lemma keeps_deepcopy_memo (depth : nat) :
  forall m x, keeps (preserves h0) (deepcopy_memo depth m x) (fun _ => True).
Proof.
  induction depth as [|d IH]; intros m x; simpl.
  - apply keeps_raise.
  - destruct x; try (apply keeps_ret; exact I).
    + eapply keeps_bind; [now apply keeps_deepcopy_items|intros r _].
      apply keeps_ret. exact I.
    + eapply keeps_bind; [now apply keeps_deepcopy_attrs|intros r _].
      apply keeps_ret. exact I.
    + destruct (memo_get m l); [apply keeps_ret; exact I|].
      eapply keeps_bind; [apply keeps_read|intros items _].
      eapply keeps_bind; [apply keeps_alloc|intros l' Hl'].
      eapply keeps_bind; [now apply keeps_deepcopy_items|intros r _].
      eapply keeps_bind; [now apply keeps_write|intros _ _].
      apply keeps_ret. exact I.
Qed.

(** The copy itself is a new object, or an immutable value. *)
Lemma keeps_deepcopy_top (depth : nat) (x : val) :
  keeps (preserves h0) (deepcopy_memo depth [] x) (fun r => not_in h0 (fst r)).
Proof.
  destruct depth as [|d]; simpl.
  - apply keeps_raise.
  - destruct x; try (apply keeps_ret; exact I).
    + eapply keeps_bind;
        [apply keeps_deepcopy_items, keeps_deepcopy_memo|intros r _].
      apply keeps_ret. exact I.
    + eapply keeps_bind;
        [apply keeps_deepcopy_attrs, keeps_deepcopy_memo|intros r _].
      apply keeps_ret. exact I.
    + eapply keeps_bind; [apply keeps_read|intros items _].
      eapply keeps_bind; [apply keeps_alloc|intros l' Hl'].
      eapply keeps_bind;
        [apply keeps_deepcopy_items, keeps_deepcopy_memo|intros r _].
      eapply keeps_bind; [now apply keeps_write|intros _ _].
      apply keeps_ret. exact Hl'.
Qed.

Lemma keeps_copy_deepcopy (a : val) : keeps (preserves h0) (copy_deepcopy a) (not_in h0).
Proof.
  unfold copy_deepcopy.
  eapply keeps_bind; [apply keeps_deepcopy_top|intros r Hr].
  apply keeps_ret. exact Hr.
Qed.

(** The function that [call_mut] hands to [modify] leaves every
    object that existed untouched, and what it returns is not one of
    them. *)
Lemma keeps_call_mut_func (shallow : val) (name : string) (args : list val)
    (kw : kwargs) (a : val) :
  keeps (preserves h0) (call_mut_func shallow name args kw a) (not_in h0).
Proof.
  unfold call_mut_func.
  eapply keeps_bind; [apply keeps_truthy|intros sh _].
  eapply keeps_bind with (Q := not_in h0).
  - destruct sh; [apply keeps_copy_copy|apply keeps_copy_deepcopy].
  - intros c Hc.
    eapply keeps_bind; [now apply keeps_call_method|intros _ _].
    apply keeps_ret. exact Hc.
Qed.

Lemma keeps_getitem (s key : val) :
  keeps (preserves h0) (getitem s key) (fun _ => True).
Proof. destruct s, key; simpl; repeat keeps_step. Qed.

Lemma keeps_setitem_immutable (s key v : val) :
  keeps (preserves h0) (engine.setitem_immutable s key v) (fun _ => True).
Proof. destruct s, key; simpl; repeat keeps_step. Qed.

(** Modifying through item accesses reads the lists on the way and
    builds new ones. *)
Lemma keeps_over_item_chain (keys : list val) (f : val -> M val) :
  (forall a, keeps (preserves h0) (f a) (fun _ => True)) ->
  forall s,
    keeps (preserves h0) (engine.over_chain (item_chain keys) s f)
          (fun _ => True).
Proof.
  intro Hf. induction keys as [|key keys IH]; intro s.
  - apply Hf.
  - rewrite item_chain_cons. cbn [engine.over_chain engine.over1].
    eapply keeps_bind; [apply keeps_getitem|intros a _].
    eapply keeps_bind; [apply IH|intros b _].
    apply keeps_setitem_immutable.
Qed.

Lemma keeps_bind_method (self : @Lens engine.Impl) (s : val) :
  keeps (preserves h0) (bind self s) (fun _ => True).
Proof.
  unfold bind, _assert_unbound. repeat keeps_step.
Qed.

(** [call_mut] through item accesses leaves every object that existed
    untouched, whatever its arguments and its outcome. *)
Lemma keeps_call_mut_item_chain (s : val) (keys : list val) (name : string)
    (args : list val) (kw : kwargs) :
  keeps (preserves h0)
        (call_mut (accessor s (item_chain keys)) name args kw)
        (fun _ => True).
Proof.
  unfold call_mut, bind_kwarg.
  eapply keeps_bind
    with (Q := fun self' : @Lens engine.Impl => lens self' = item_chain keys).
  - destruct (kw_get kw "state").
    + unfold bind, _assert_unbound.
      destruct (negb (is_None (state (accessor s (item_chain keys))))).
      * unfold bindM, raise. intros h r h' Hp E. inversion E; subst.
        split; [assumption|]. intros a Ha. discriminate.
      * rewrite bindM_ret_eq. now apply keeps_ret.
    + now apply keeps_ret.
  - intros self' Hlens. unfold modify, rebind. simpl default_arg.
    cbn [is_None negb].
    rewrite bindM_ret_eq. unfold _assert_bound.
    eapply keeps_bind; [destruct (is_None (state self')); repeat keeps_step|].
    intros _ _. simpl optics.over. rewrite Hlens. unfold engine.over.
    destruct (forallb engine.writable (item_chain keys));
      [|apply keeps_raise].
    apply keeps_over_item_chain. intro a.
    eapply keeps_weaken; [apply keeps_call_mut_func|auto].
Qed.

End Preservation.

(** ** A deep copy shares no object with the original *)

Section DeepCopy.

Variable h0 : heap.

Lemma nth_error_update_same {A} (l : list A) (i : nat) (a x : A) :
  nth_error (update l i a) i = Some x -> x = a.
Proof.
  revert i. induction l as [|y l IH]; intros [|i] H; simpl in *;
    try discriminate.
  - now inversion H.
  - now apply (IH i).
Qed.

Lemma separate_start : separate h0 h0.
Proof.
  split; [apply preserves_refl|]. intros k items Hk E.
  assert (k < List.length h0)%nat by (apply nth_error_Some; congruence).
  unfold fresh_for in Hk. lia.
Qed.

Lemma separate_alloc (items : list val) :
  forallb (new_val (List.length h0)) items = true ->
  keeps (separate h0) (alloc items) (fresh_for h0).
Proof.
  intros Hnew h r h' [Hp Hc] E. unfold alloc in E. inversion E; subst.
  split; [split|].
  - now apply preserves_alloc.
  - intros k x Hk Ek.
    destruct (Nat.lt_ge_cases k (List.length h)) as [Hlt|Hge].
    + rewrite nth_error_app1 in Ek by assumption. now apply (Hc k).
    + rewrite nth_error_app2 in Ek by assumption.
      destruct (k - List.length h)%nat as [|j]; simpl in Ek.
      * now inversion Ek; subst.
      * destruct j; discriminate.
  - intros a Ha. inversion Ha; subst. now apply preserves_length.
Qed.

Lemma separate_write (l : loc) (items : list val) :
  fresh_for h0 l ->
  forallb (new_val (List.length h0)) items = true ->
  keeps (separate h0) (write l items) (fun _ => True).
Proof.
  intros Hl Hnew h r h' [Hp Hc] E. unfold write in E.
  destruct (nth_error h l); inversion E; subst; split; auto; [|now split].
  split; [now apply preserves_update|].
  intros k x Hk Ek. destruct (Nat.eq_dec k l) as [->|Hne].
  - now rewrite (nth_error_update_same _ _ _ Ek).
  - rewrite nth_error_update_other in Ek by assumption. now apply (Hc k).
Qed.

Lemma memo_new_cons (m : memo) (l l' : loc) :
  memo_new h0 m -> fresh_for h0 l' -> memo_new h0 ((l, l') :: m).
Proof.
  intros Hm Hl' k k' E. simpl in E.
  destruct (Nat.eqb l k); [now inversion E; subst|now apply (Hm k)].
Qed.

Lemma separate_deepcopy_items (rec : memo -> val -> M (val * memo)) :
  (forall m x, memo_new h0 m -> keeps (separate h0) (rec m x) (copied h0)) ->
  forall items m,
    memo_new h0 m ->
    keeps (separate h0) (deepcopy_items rec m items)
      (fun r => forallb (new_val (List.length h0)) (fst r) = true /\
                memo_new h0 (snd r)).
Proof.
  intro Hrec. induction items as [|a rest IH]; intros m Hm; simpl.
  - apply keeps_ret. now split.
  - eapply keeps_bind; [now apply Hrec|intros r [Hr1 Hr2]].
    eapply keeps_bind; [now apply IH|intros rs [Hrs1 Hrs2]].
    apply keeps_ret. simpl. split; [now rewrite Hr1, Hrs1|assumption].
Qed.

Lemma separate_deepcopy_attrs (rec : memo -> val -> M (val * memo)) :
  (forall m x, memo_new h0 m -> keeps (separate h0) (rec m x) (copied h0)) ->
  forall attrs m,
    memo_new h0 m ->
    keeps (separate h0) (deepcopy_attrs rec m attrs)
      (fun r => forallb (fun p => new_val (List.length h0) (snd p)) (fst r) = true /\
                memo_new h0 (snd r)).
Proof.
  intro Hrec. induction attrs as [|[k a] rest IH]; intros m Hm; simpl.
  - apply keeps_ret. now split.
  - eapply keeps_bind; [now apply Hrec|intros r [Hr1 Hr2]].
    eapply keeps_bind; [now apply IH|intros rs [Hrs1 Hrs2]].
    apply keeps_ret. simpl. split; [now rewrite Hr1, Hrs1|assumption].
Qed.

Lemma separate_deepcopy_memo (depth : nat) :
  forall m x,
    memo_new h0 m -> keeps (separate h0) (deepcopy_memo depth m x) (copied h0).
Proof.
  induction depth as [|d IH]; intros m x Hm; simpl.
  - apply keeps_raise.
  - destruct x; try (apply keeps_ret; now split).
    + eapply keeps_bind; [now apply separate_deepcopy_items|intros r [Hr1 Hr2]].
      apply keeps_ret. now split.
    + eapply keeps_bind; [now apply separate_deepcopy_attrs|intros r [Hr1 Hr2]].
      apply keeps_ret. now split.
    + destruct (memo_get m l) as [l'|] eqn:E.
      * apply keeps_ret. split; [|assumption]. simpl.
        apply Nat.leb_le. now apply (Hm l).
      * eapply keeps_bind; [apply keeps_read|intros items _].
        eapply keeps_bind; [now apply separate_alloc|intros l' Hl'].
        eapply keeps_bind;
          [apply separate_deepcopy_items;
           [exact IH|now apply memo_new_cons]|intros r [Hr1 Hr2]].
        eapply keeps_bind; [now apply separate_write|intros _ _].
        apply keeps_ret. split; [|assumption]. simpl.
        now apply Nat.leb_le.
Qed.

Lemma separate_copy_deepcopy (a : val) :
  keeps (separate h0) (copy_deepcopy a)
        (fun c => new_val (List.length h0) c = true).
Proof.
  unfold copy_deepcopy.
  eapply keeps_bind;
    [apply separate_deepcopy_memo; intros l l' E; discriminate|intros r [Hr _]].
  apply keeps_ret. exact Hr.
Qed.

End DeepCopy.

(** A deep copy made in the store [h] is built of objects that are not
    in [h], refers to such objects only, and leaves [h] as it is. *)
Lemma copy_deepcopy_separate (a c : val) (h h1 : heap) :
  copy_deepcopy a h = (Ok c, h1) ->
  new_val (List.length h) c = true /\ closed_new h h1 /\ preserves h h1.
Proof.
  intro E.
  destruct (separate_copy_deepcopy (h0:=h) a (separate_start h) E)
    as [[Hp Hc] Hnew].
  split; [now apply Hnew|]. now split.
Qed.

(** ** [sort] sorts *)

Lemma insert_sorted_HdRel (a z : Z) (l : list Z) :
  a <= z -> HdRel Z.le a l -> HdRel Z.le a (insert_sorted z l).
Proof.
  intros Haz H. destruct l as [|y l]; simpl.
  - now constructor.
  - destruct (z <=? y); constructor; [assumption|now inversion H].
Qed.

Lemma insert_sorted_Sorted (z : Z) (l : list Z) :
  Sorted Z.le l -> Sorted Z.le (insert_sorted z l).
Proof.
  induction 1 as [|y l Hl IH Hd]; simpl.
  - repeat constructor.
  - destruct (z <=? y) eqn:E.
    + constructor; [now constructor|constructor; lia].
    + constructor; [assumption|]. apply insert_sorted_HdRel; [lia|assumption].
Qed.

Lemma sorted_Sorted (l : list Z) : Sorted Z.le (sorted l).
Proof.
  induction l as [|z l IH]; simpl; [constructor|].
  now apply insert_sorted_Sorted.
Qed.

Lemma insert_sorted_Permutation (z : Z) (l : list Z) :
  Permutation (z :: l) (insert_sorted z l).
Proof.
  induction l as [|y l IH]; simpl; [reflexivity|].
  destruct (z <=? y); [reflexivity|].
  rewrite perm_swap. now constructor.
Qed.

Lemma sorted_Permutation (l : list Z) : Permutation l (sorted l).
Proof.
  induction l as [|z l IH]; simpl; [reflexivity|].
  rewrite <- insert_sorted_Permutation. now constructor.
Qed.

(** ** [call_mut] with [sort] on a list of integers *)

Lemma as_ints_map (zs : list Z) : as_ints (map VInt zs) = Some zs.
Proof. induction zs as [|z zs IH]; simpl; [reflexivity|now rewrite IH]. Qed.

Lemma nth_error_app_last {A} (l : list A) (x : A) :
  nth_error (l ++ [x]) (List.length l) = Some x.
Proof. induction l; simpl; auto. Qed.

Lemma update_app_last {A} (l : list A) (x y : A) :
  update (l ++ [x]) (List.length l) y = l ++ [y].
Proof. induction l as [|a l IH]; simpl; [reflexivity|now rewrite IH]. Qed.

Lemma deepcopy_items_atoms (rec : memo -> val -> M (val * memo)) :
  (forall m z h, rec m (VInt z) h = (Ok (VInt z, m), h)) ->
  forall (m : memo) (zs : list Z) (h : heap),
    deepcopy_items rec m (map VInt zs) h = (Ok (map VInt zs, m), h).
Proof.
  intros Hrec m zs h. induction zs as [|z zs IH]; [reflexivity|].
  cbn [map deepcopy_items]. unfold bindM at 1. rewrite Hrec. cbn [fst snd].
  unfold bindM. rewrite IH. reflexivity.
Qed.

Lemma deepcopy_items_ints (d : nat) (m : memo) (zs : list Z) (h : heap) :
  deepcopy_items (deepcopy_memo (S d)) m (map VInt zs) h =
  (Ok (map VInt zs, m), h).
Proof. apply deepcopy_items_atoms. reflexivity. Qed.

Lemma deepcopy_memo_ref (d : nat) (m : memo) (l : loc) :
  deepcopy_memo (S d) m (VRef l) =
  match memo_get m l with
  | Some l' => ret (VRef l', m)
  | None =>
      items <- read l ;;
      l' <- alloc [] ;;
      r <- deepcopy_items (deepcopy_memo d) ((l, l') :: m) items ;;
      write l' (fst r) ;;;
      ret (VRef l', snd r)
  end.
Proof. reflexivity. Qed.

Lemma deepcopy_list_of_ints (d : nat) (l : loc) (zs : list Z) (h : heap) :
  nth_error h l = Some (map VInt zs) ->
  deepcopy_memo (S (S d)) [] (VRef l) h =
  (Ok (VRef (List.length h), [(l, List.length h)]), h ++ [map VInt zs]).
Proof.
  intro Hl. rewrite deepcopy_memo_ref. cbn [memo_get].
  unfold bindM at 1. unfold read. rewrite Hl.
  unfold bindM at 1. unfold alloc.
  unfold bindM at 1. rewrite deepcopy_items_ints. cbn [fst snd].
  unfold bindM, write. rewrite nth_error_app_last, update_app_last.
  reflexivity.
Qed.

Lemma copy_deepcopy_list_of_ints (l : loc) (zs : list Z) (h : heap) :
  nth_error h l = Some (map VInt zs) ->
  copy_deepcopy (VRef l) h = (Ok (VRef (List.length h)), h ++ [map VInt zs]).
Proof.
  intro Hl. unfold copy_deepcopy, bindM.
  change recursion_limit with (S (S 998)).
  now rewrite (@deepcopy_list_of_ints 998 l zs h Hl).
Qed.

Lemma sort_list_of_ints (zs : list Z) (h : heap) :
  call_method (VRef (List.length h)) "sort" [] [] (h ++ [map VInt zs]) =
  (Ok VNone, h ++ [map VInt (sorted zs)]).
Proof.
  cbn [call_method]. unfold list_method, bindM, read.
  rewrite nth_error_app_last. cbn [String.eqb Ascii.eqb Bool.eqb].
  rewrite as_ints_map. unfold write.
  rewrite nth_error_app_last, update_app_last. reflexivity.
Qed.

(** The copy of a list of integers is sorted; the list itself stays as
    it is, whether the copy is deep or shallow. *)
Lemma call_mut_func_sort (shallow : bool) (l : loc) (zs : list Z) (h : heap) :
  nth_error h l = Some (map VInt zs) ->
  call_mut_func (VBool shallow) "sort" [] [] (VRef l) h =
  (Ok (VRef (List.length h)), h ++ [map VInt (sorted zs)]).
Proof.
  intro Hl. unfold call_mut_func. cbn [truthy]. rewrite bindM_ret.
  unfold bindM at 1.
  assert (Hcopy :
    (if shallow then copy_copy (VRef l) else copy_deepcopy (VRef l)) h =
    (Ok (VRef (List.length h)), h ++ [map VInt zs])).
  { destruct shallow.
    - unfold copy_copy, bindM, read, alloc. now rewrite Hl.
    - now apply copy_deepcopy_list_of_ints. }
  rewrite Hcopy. unfold bindM.
  now rewrite (sort_list_of_ints zs h).
Qed.

Lemma truthy_store (v : val) (h : heap) (r : result bool) (h' : heap) :
  truthy v h = (r, h') -> h' = h.
Proof.
  destruct v; simpl; unfold ret, bindM, read; intro E;
    try (now inversion E).
  destruct (nth_error h l); now inversion E.
Qed.

(* ================================================================== *)
(** * Item access on lists: equality by value *)
(* ================================================================== *)

Section ValueEquality.

Lemma all2_impl {A} (f g : A -> A -> bool) (l1 l2 : list A) :
  (forall x y, f x y = true -> g x y = true) ->
  all2 f l1 l2 = true -> all2 g l1 l2 = true.
Proof.
  intro Hfg. revert l2. induction l1 as [|a l1 IH]; intros [|b l2] H;
    simpl in *; try discriminate; [reflexivity|].
  apply andb_true_iff in H as [Hab Hr].
  apply andb_true_iff. split; [now apply Hfg|now apply IH].
Qed.

Lemma all2_nth_error {A} (f : A -> A -> bool) (l : list A) (i : nat) (a : A) :
  all2 f l l = true -> nth_error l i = Some a -> f a a = true.
Proof.
  revert i. induction l as [|x l IH]; intros [|i] H Hn; simpl in *;
    try discriminate; apply andb_true_iff in H as [Hx Hl].
  - inversion Hn; subst. exact Hx.
  - now apply (IH i).
Qed.

Lemma all2_diagonal {A} (f g : A -> A -> bool) (l : list A) :
  (forall x, f x x = true -> g x x = true) ->
  all2 f l l = true -> all2 g l l = true.
Proof.
  intro Hfg. induction l as [|x l IH]; simpl; [reflexivity|]. intro H.
  apply andb_true_iff in H as [Hx Hl].
  apply andb_true_iff. split; [now apply Hfg|now apply IH].
Qed.

Lemma all2_update {A} (f g : A -> A -> bool) (l : list A) (i : nat) (a b : A) :
  nth_error l i = Some a ->
  all2 f l l = true ->
  (forall x, f x x = true -> g x x = true) ->
  g a b = true ->
  all2 g l (update l i b) = true.
Proof.
  intros Hn Hf Hfg Hab. revert i Hn.
  induction l as [|x l IH]; intros [|i] Hn; simpl in *; try discriminate;
    apply andb_true_iff in Hf as [Hx Hl]; apply andb_true_iff; split.
  - inversion Hn; subst. exact Hab.
  - now apply (all2_diagonal f).
  - now apply Hfg.
  - now apply IH.
Qed.

(** Objects that are preserved compare as before. *)
Lemma value_eqb_preserved (d : nat) :
  forall h1 a h2 b h2',
    preserves h2 h2' ->
    value_eqb d h1 a h2 b = true -> value_eqb d h1 a h2' b = true.
Proof.
  induction d as [|d IH]; intros h1 a h2 b h2' Hp H; simpl in *;
    [discriminate|].
  destruct a, b; try discriminate; try exact H.
  - eapply all2_impl; [|exact H]. intros x y. now apply IH.
  - eapply all2_impl; [|exact H]. intros x y Hxy.
    apply andb_true_iff in Hxy as [Hk Hv].
    apply andb_true_iff. split; [assumption|]. now apply (IH _ _ h2).
  - destruct (nth_error h1 l) as [xs|]; [|discriminate].
    destruct (nth_error h2 l0) as [ys|] eqn:E; [|discriminate].
    rewrite (Hp _ _ E). eapply all2_impl; [|exact H].
    intros x y. now apply IH.
Qed.

(** What a successful item access tells about the state. *)
Lemma getitem_inv (s key a : val) (h h1 : heap) :
  getitem s key h = (Ok a, h1) ->
  h1 = h /\
  exists z items i,
    key = VInt z /\
    position (List.length items) z = Some i /\
    nth_error items i = Some a /\
    (s = VTuple items \/ exists l, s = VRef l /\ nth_error h l = Some items).
Proof.
  intro H. destruct s; simpl in H; try discriminate;
    destruct key; try discriminate.
  - destruct (position (List.length items) z) as [i|] eqn:Ep; [|discriminate].
    destruct (nth_error items i) as [x|] eqn:En; [|discriminate].
    inversion H; subst. split; [reflexivity|].
    exists z, items, i. repeat split; auto.
  - unfold bindM, read in H.
    destruct (nth_error h l) as [items|] eqn:El; [|discriminate].
    destruct (position (List.length items) z) as [i|] eqn:Ep; [|discriminate].
    destruct (nth_error items i) as [x|] eqn:En; [|discriminate].
    inversion H; subst. split; [reflexivity|].
    exists z, items, i. repeat split; eauto.
Qed.

(** Modifying with the identity function through a chain of item
    accesses rebuilds the lists on the way with the same items: the new
    state is equal to the old one by value, and no object that existed
    is touched. *)
Lemma over_item_chain (keys : list val) :
  forall d s h l h',
    value_eqb d h s h s = true ->
    engine.foci (item_chain keys) s h = (Ok l, h') ->
    h' = h /\
    exists s' h2,
      engine.over_chain (item_chain keys) s (fun a => ret a) h = (Ok s', h2) /\
      preserves h h2 /\
      value_eqb d h s h2 s' = true.
Proof.
  induction keys as [|key keys IH]; intros d s h l h' Heq Hf.
  - simpl in Hf. inversion Hf; subst. split; [reflexivity|].
    exists s, h'. repeat split; [apply preserves_refl|assumption].
  - rewrite item_chain_cons in *. cbn [engine.foci engine.foci1] in Hf.
    unfold bindM in Hf.
    destruct (getitem s key h) as [[a|e] h1] eqn:Eg; [|discriminate].
    destruct (getitem_inv _ _ _ Eg) as [E1 (z & items & i & -> & Hpos & Hn & Hs)].
    subst h1.
    unfold ret at 1 in Hf. cbn [mapM] in Hf. unfold bindM in Hf.
    destruct (engine.foci (item_chain keys) a h) as [[la|e] ha] eqn:Ef;
      [|discriminate].
    destruct d as [|d]; [discriminate|].
    assert (Hitems : all2 (fun x y => value_eqb d h x h y) items items = true).
    { destruct Hs as [->|(l0 & -> & Hl0)]; simpl in Heq; [exact Heq|].
      now rewrite Hl0 in Heq. }
    pose proof (all2_nth_error _ _ _ Hitems Hn) as Ha.
    destruct (IH _ _ _ _ _ Ha Ef) as [E2 (b & h1 & Hover & Hp1 & Hab)].
    subst ha.
    unfold ret in Hf. injection Hf as Hl Hh. subst h' l.
    split; [reflexivity|].
    cbn [engine.over_chain engine.over1]. unfold bindM.
    rewrite Eg, Hover.
    destruct Hs as [->|(l0 & -> & Hl0)].
    + cbn [engine.setitem_immutable]. rewrite Hpos.
      eexists; eexists. split; [reflexivity|]. split; [assumption|].
      cbn [value_eqb].
      apply (all2_update (fun x y => value_eqb d h x h y)) with (a := a);
        try assumption.
      intros x Hx. now apply (value_eqb_preserved _ _ _ _ Hp1).
    + cbn [engine.setitem_immutable]. unfold bindM, read, alloc.
      rewrite (Hp1 _ _ Hl0), Hpos. unfold write.
      rewrite nth_error_app_last, update_app_last.
      eexists; eexists. split; [reflexivity|].
      assert (Hp2 : preserves h (h1 ++ [update items i b]))
        by now apply preserves_alloc.
      split; [assumption|].
      cbn [value_eqb]. rewrite Hl0, nth_error_app_last.
      apply (all2_update (fun x y => value_eqb d h x h y)) with (a := a);
        try assumption.
      * intros x Hx. now apply (value_eqb_preserved _ _ _ _ Hp2).
      * apply (value_eqb_preserved _ _ _ _ (h2:=h1)); [|assumption].
        apply preserves_alloc, preserves_refl.
Qed.

Lemma item_chain_capabilities (keys : list val) :
  forallb engine.readable (item_chain keys) = true /\
  forallb engine.writable (item_chain keys) = true.
Proof.
  induction keys as [|key keys [IHr IHw]]; [split; reflexivity|].
  rewrite item_chain_cons. simpl. now rewrite IHr, IHw.
Qed.

End ValueEquality.

(* ================================================================== *)
(** * Special methods and the operators of the language *)
(* ================================================================== *)


Lemma In_assoc {A} (name : string) (l : list (string * A)) :
  In name (map fst l) -> assoc name l <> None.
Proof.
  induction l as [|[k y] rest IH]; simpl; [tauto|].
  intros [->|H].
  - now rewrite String.eqb_refl.
  - destruct (String.eqb k name); [discriminate|now apply IH].
Qed.

(** The names of [operator_dunders] are those of
    [transparent_dunders]. *)
Lemma transparent_dunders_operator_dunders :
  transparent_dunders = operator_dunders.
Proof. reflexivity. Qed.

(** Every operator method is a binary method of [int], one of its
    three unary methods, or one of the four that [int] lacks. *)
Lemma operator_dunders_of_int (name : string) :
  In name operator_dunders ->
  In name int_binary_dunders \/
  In name ["__neg__"; "__pos__"; "__invert__"] \/
  In name ["__matmul__"; "__div__"; "__rmatmul__"; "__rdiv__"].
Proof.
  intro H. simpl in H.
  repeat (destruct H as [<-|H];
          [first [left; simpl; tauto
                 |right; left; simpl; tauto
                 |right; right; simpl; tauto]|]).
  destruct H.
Qed.

(** A binary method of [int] returns [NotImplemented] for an argument
    that is not an [int]. *)
Lemma int_call_NotImplemented (z : Z) (name : string) (x : val) :
  In name int_binary_dunders -> as_int x = None ->
  int_call z name [x] [] = Ok VNotImplemented.
Proof.
  intros Hin Hx. unfold int_call.
  pose proof (In_assoc _ _ Hin) as Hb.
  assert (Hu : int_unop name z = None).
  { simpl in Hin.
    repeat (destruct Hin as [<-|Hin]; [reflexivity|]). destruct Hin. }
  rewrite Hu.
  destruct (assoc name int_binary_methods); [|congruence].
  now rewrite Hx.
Qed.

(** [int] has no method for the four other names. *)
Lemma int_call_missing (z : Z) (name : string) (args : list val) (kw : kwargs) :
  In name ["__matmul__"; "__div__"; "__rmatmul__"; "__rdiv__"] ->
  int_call z name args kw = Raise (AttributeError name).
Proof.
  intro H. simpl in H.
  repeat (destruct H as [<-|H]; [reflexivity|]). destruct H.
Qed.






(* ================================================================== *)
(** * The scenarios of the specification and of the docstrings *)
(* ================================================================== *)

(** The names that [split] finds in the text of [transparent_dunders]. *)
Example transparent_dunders_names :
  transparent_dunders =
  ["__lt__"; "__le__"; "__eq__"; "__ne__"; "__gt__"; "__ge__";
   "__add__"; "__sub__"; "__mul__"; "__matmul__"; "__truediv__";
   "__floordiv__"; "__div__"; "__mod__"; "__divmod__"; "__pow__";
   "__lshift__"; "__rshift__"; "__and__"; "__xor__"; "__or__";
   "__radd__"; "__rsub__"; "__rmul__"; "__rmatmul__"; "__rtruediv__";
   "__rfloordiv__"; "__rdiv__"; "__rmod__"; "__rdivmod__"; "__rpow__";
   "__rlshift__"; "__rrshift__"; "__rand__"; "__rxor__"; "__ror__";
   "__neg__"; "__pos__"; "__invert__"].
Proof. reflexivity. Qed.

(** [lens([1, 2, 3])[1].get()] is [2]. *)
Example scenario_index_get :
  get (accessor (VRef 0%nat) (item_chain [VInt 1])) None one_two_three =
  (Ok (VInt 2), one_two_three).
Proof. reflexivity. Qed.

(** [lens([1, 2, 3])[1].set(4)] is the new list [[1, 4, 3]]. *)
Example scenario_index_set :
  set (accessor (VRef 0%nat) (item_chain [VInt 1])) (VInt 4) None one_two_three =
  (Ok (VRef 1%nat), one_two_three ++ [[VInt 1; VInt 4; VInt 3]]).
Proof. reflexivity. Qed.

(** [lens([1, 2, 3])[1].modify(lambda n: n + 10)] is [[1, 12, 3]]. *)
Example scenario_index_modify :
  modify (accessor (VRef 0%nat) (item_chain [VInt 1]))
         (fun n => call_method n "__add__" [VInt 10] []) None one_two_three =
  (Ok (VRef 1%nat), one_two_three ++ [[VInt 1; VInt 12; VInt 3]]).
Proof. reflexivity. Qed.

(** [lens([1, 2, 3])[1] + 10], through the operation that
    [_add_extra_methods] installs, is [[1, 12, 3]] as well. *)
Example scenario_operator :
  _carry_op "__add__" (accessor (VRef 0%nat) (item_chain [VInt 1]))
            [VInt 10] [] one_two_three =
  (Ok (VRef 1%nat), one_two_three ++ [[VInt 1; VInt 12; VInt 3]]).
Proof. reflexivity. Qed.

(** [lens([1, 2, 3]).both_().get_all()] is [[1, 2]]. *)
Example scenario_both_get_all :
  get_all (accessor (VRef 0%nat) engine.BothTraversal) None one_two_three =
  (Ok [VInt 1; VInt 2], one_two_three).
Proof. reflexivity. Qed.

(** [lens([1, 2, 3]).both_().set(4)] is [[4, 4, 3]]. *)
Example scenario_both_set :
  set (accessor (VRef 0%nat) engine.BothTraversal) (VInt 4) None one_two_three =
  (Ok (VRef 2%nat),
   one_two_three ++ [[VInt 4; VInt 2; VInt 3]; [VInt 4; VInt 4; VInt 3]]).
Proof. reflexivity. Qed.

(** [lens([[3, 1, 2], [5, 4]])[0].call_mut('sort')]: the result is equal
    by value to [[[1, 2, 3], [5, 4]]], here the list at location 2 of
    the second store, and the list [[3, 1, 2]] is still what it was. *)
Example scenario_call_mut :
  let h' := snd (call_mut (accessor (VRef 2%nat) (item_chain [VInt 0]))
                          "sort" [] [] nested_lists) in
  fst (call_mut (accessor (VRef 2%nat) (item_chain [VInt 0]))
                "sort" [] [] nested_lists) = Ok (VRef 4%nat) /\
  value_eqb 3 h' (VRef 4%nat)
            [[VInt 1; VInt 2; VInt 3]; [VInt 5; VInt 4]; [VRef 0%nat; VRef 1%nat]]
            (VRef 2%nat) = true /\
  nth_error h' 0 = Some [VInt 3; VInt 1; VInt 2].
Proof. vm_compute. repeat split. Qed.

(* ================================================================== *)
(** * Claims about the front-end alone *)
(* ================================================================== *)

Section FacadeClaims.
Context {O : optics.Impl}.

(** C1.  Whenever [get_all] returns the list of foci of an accessor
    (which it does only for an accessor bound to a state), [get]
    returns the first item of that list when the list is not empty,
    and raises [IndexError] when the chain resolved to no focus. *)
Theorem get_returns_first_focus :
  forall (self : Lens) (st : option val) (h h' : heap) (l : list val),
    get_all self st h = (Ok l, h') ->
    get self st h =
    (match l with
     | a :: _ => Ok a
     | [] => Raise (IndexError "list index out of range")
     end, h').
Proof.
  intros self st h h' l H.
  rewrite (get_after_get_all _ _ _ H). destruct l; reflexivity.
Qed.

(** C3.  On an accessor without a target state, each of [get],
    [get_all], [get_monoid], [set], [modify] and [construct], called
    without a state argument, raises the state-binding error at once
    and leaves the store as it was; none of them returns a value. *)
Theorem unbound_query_raises :
  forall (self : Lens) (h : heap),
    state self = VNone ->
    get self None h =
      (Raise (ValueError "Lens.get requires a bound lens"), h) /\
    get_all self None h =
      (Raise (ValueError "Lens.get_all requires a bound lens"), h) /\
    get_monoid self None h =
      (Raise (ValueError "Lens.get_monoid requires a bound lens"), h) /\
    (forall v, set self v None h =
      (Raise (ValueError "Lens.set requires a bound lens"), h)) /\
    (forall f, modify self f None h =
      (Raise (ValueError "Lens.modify requires a bound lens"), h)) /\
    construct self None h =
      (Raise (ValueError "Lens.construct requires a bound lens"), h).
Proof.
  intros self h Hs.
  repeat split; intros;
    auto using get_unbound, get_all_unbound, get_monoid_unbound,
      set_unbound, modify_unbound, construct_unbound.
Qed.

(** C4.  [bind] on an accessor that already has a state raises the
    state-binding error whatever the new state is; on an accessor
    without a state it returns an accessor with the same optic and the
    given state.  Accessors are immutable records and the store is
    left as it was, so the original is not changed in either case. *)
Theorem bind_single_use :
  forall (self : Lens) (h : heap),
    (state self <> VNone ->
     forall state2, bind self state2 h =
       (Raise (ValueError "Lens.bind requires an unbound lens"), h)) /\
    (state self = VNone ->
     forall s, bind self s h = (Ok (mkLens s (lens self)), h)).
Proof.
  intros self h. split; intros Hs s.
  - now apply bind_bound.
  - now apply bind_unbound.
Qed.


(** C7.  An attribute access that reaches [__getattr__] raises
    [AttributeError] when the name ends with an underscore; otherwise a
    name with the prefix [call_mut_] gives a callable that is
    [call_mut] with the rest of the name as method name; otherwise a
    name with the prefix [call_] gives a callable that is [call] with
    the rest of the name; otherwise the accessor composed with the
    get-or-zoom traversal of the name is returned.  Indexing returns
    the accessor composed with the item-access optic of the key. *)
Theorem getattr_dispatch :
  forall (self : Lens) (name : string) (h : heap),
    (endswith name "_" = true ->
     __getattr__ self name h =
       (Raise (AttributeError "Not a valid lens constructor"), h)) /\
    (endswith name "_" = false -> startswith name "call_mut_" = true ->
     exists caller suffix,
       __getattr__ self name h = (Ok (Caller caller), h) /\
       name = ("call_mut_" ++ suffix)%string /\
       forall args kw, caller args kw = call_mut self suffix args kw) /\
    (endswith name "_" = false -> startswith name "call_mut_" = false ->
     startswith name "call_" = true ->
     exists caller suffix,
       __getattr__ self name h = (Ok (Caller caller), h) /\
       name = ("call_" ++ suffix)%string /\
       forall args kw, caller args kw = call self suffix args kw) /\
    (endswith name "_" = false -> startswith name "call_mut_" = false ->
     startswith name "call_" = false ->
     __getattr__ self name h =
       bindM (optics.compose (lens self) (optics.GetZoomAttrTraversal name))
             (fun c => ret (Accessor (mkLens (state self) c))) h) /\
    (forall key,
       __getitem__ self key h =
       bindM (optics.compose (lens self) (optics.GetitemLens key))
             (fun c => ret (mkLens (state self) c)) h).
Proof.
  intros self name h. unfold __getattr__.
  split; [|split; [|split; [|split]]].
  - intros ->. reflexivity.
  - intros -> E. rewrite E.
    eexists; exists (slice_from 9 name). split; [reflexivity|].
    split; [|reflexivity]. exact (startswith_slice _ _ E).
  - intros -> -> E. rewrite E.
    eexists; exists (slice_from 5 name). split; [reflexivity|].
    split; [|reflexivity]. exact (startswith_slice _ _ E).
  - intros -> -> ->. unfold add_lens, bindM.
    destruct (optics.compose (lens self) (optics.GetZoomAttrTraversal name) h)
      as [[c|e] h1]; reflexivity.
  - intro key. reflexivity.
Qed.

(** C10.  [None] cannot be a bound state.  An accessor constructed with
    state [None] is the accessor constructed without a state, binding
    an accessor without a state to [None] gives it back, and on such an
    accessor every query method raises the "requires a bound lens"
    error.  Passing [None] as the state argument of a query method is
    the same as passing no state. *)
Theorem None_state_is_unbound :
  forall (l : option optics.LensLike) (h : heap),
    let self := __init__ (Some VNone) l in
    self = __init__ None l /\
    bind (__init__ None l) VNone h = (Ok self, h) /\
    (get self None h =
       (Raise (ValueError "Lens.get requires a bound lens"), h) /\
     get_all self None h =
       (Raise (ValueError "Lens.get_all requires a bound lens"), h) /\
     get_monoid self None h =
       (Raise (ValueError "Lens.get_monoid requires a bound lens"), h) /\
     (forall v, set self v None h =
       (Raise (ValueError "Lens.set requires a bound lens"), h)) /\
     (forall f, modify self f None h =
       (Raise (ValueError "Lens.modify requires a bound lens"), h)) /\
     (forall name args, call self name args [] h =
       (Raise (ValueError "Lens.modify requires a bound lens"), h)) /\
     construct self None h =
       (Raise (ValueError "Lens.construct requires a bound lens"), h)) /\
    (forall other : Lens,
       get other (Some VNone) = get other None /\
       get_all other (Some VNone) = get_all other None /\
       get_monoid other (Some VNone) = get_monoid other None /\
       (forall v, set other v (Some VNone) = set other v None) /\
       (forall f, modify other f (Some VNone) = modify other f None) /\
       construct other (Some VNone) = construct other None).
Proof.
  intros l h self.
  assert (Hs : state self = VNone) by reflexivity.
  split; [reflexivity|]. split; [reflexivity|]. split.
  - repeat split; intros;
      auto using get_unbound, get_all_unbound, get_monoid_unbound,
        set_unbound, modify_unbound, construct_unbound.
  - intro other. repeat split; reflexivity.
Qed.

End FacadeClaims.

(* ================================================================== *)
(** * Claims that depend on the engine *)
(* ================================================================== *)

(** [set] and [modify] take the same steps before they reach the engine;
    they agree as soon as the engine's [set] is its [over] with a
    constant function. *)
Lemma set_modify_agree {O : optics.Impl} :
  (forall o s v h,
     optics.set o s v h = optics.over o s (fun _ => ret v) h) ->
  forall (self : Lens) (v : val) (st : option val) (h : heap),
    state self <> VNone ->
    set self v st h = modify self (fun _ => ret v) st h.
Proof.
  intros Hset self v st h Hs.
  unfold set, modify, rebind.
  destruct (negb (is_None (default_arg st VNone))).
  - unfold bindM. rewrite (bind_bound _ _ h Hs). reflexivity.
  - rewrite !bindM_ret. unfold bindM.
    rewrite !(assert_bound_bound _ _ h Hs). apply Hset.
Qed.

Section EngineClaims.

(** C2.  On an accessor bound to a state, [set(v)] and
    [modify(lambda _: v)] give the same outcome: the same new state and
    the same store, or the same exception.  This holds with or without
    a state argument. *)
Theorem set_is_modify_with_constant :
  forall (self : @Lens engine.Impl) (v : val) (st : option val) (h : heap),
    state self <> VNone ->
    set self v st h = modify self (fun _ => ret v) st h.
Proof.
  intros self v st h Hs. apply set_modify_agree; [|assumption].
  reflexivity.
Qed.

(** C8, as amended.  On an accessor without a state, [construct] with
    a focus other than [None] returns [re().view(focus)] when every
    optic of the chain is reversible, which is the focus taken back
    through the backward functions from the innermost optic to the
    outermost; it raises the capability error when some optic is not
    reversible.  On an accessor that is bound to a state, [construct]
    with such a focus raises the state-binding error, and [construct]
    without a focus takes the bound state as the focus. *)
Theorem construct_runs_reversed_chain :
  forall (chain : engine.CompositeOptic) (focus : val) (h : heap),
    focus <> VNone ->
    (forallb engine.reversible chain = true ->
     construct (accessor VNone chain) (Some focus) h =
       bindM (engine.re chain) (fun r => engine.view r focus) h /\
     construct (accessor VNone chain) (Some focus) h =
       run_backwards chain focus h /\
     construct (accessor focus chain) None h =
       run_backwards chain focus h) /\
    (forall o, In o chain -> engine.reversible o = false ->
     construct (accessor VNone chain) (Some focus) h =
       (Raise (CapabilityError "the optic is not reversible"), h)) /\
    (forall s, s <> VNone ->
     construct (accessor s chain) (Some focus) h =
       (Raise (ValueError "Lens.bind requires an unbound lens"), h)).
Proof.
  intros chain focus h Hf.
  assert (Hunbound :
    construct (accessor VNone chain) (Some focus) h =
    bindM (engine.re chain) (fun r => engine.view r focus) h)
    by exact (@construct_unbound_focus engine.Impl (accessor VNone chain)
                focus h eq_refl Hf).
  split; [|split].
  - intro Hrev. split; [exact Hunbound|]. split.
    + rewrite Hunbound. unfold bindM. rewrite (re_reversible _ h Hrev).
      now apply view_reversed.
    + rewrite (@construct_bound_no_focus engine.Impl (accessor focus chain)
                 h Hf).
      simpl. unfold bindM. rewrite (re_reversible _ h Hrev).
      now apply view_reversed.
  - intros o Hin Ho.
    assert (Hrev : forallb engine.reversible chain = false).
    { destruct (forallb engine.reversible chain) eqn:E; [|reflexivity].
      rewrite forallb_forall in E. specialize (E o Hin). congruence. }
    rewrite Hunbound. unfold bindM.
    now rewrite (re_not_reversible _ h Hrev).
  - intros s Hs.
    exact (@construct_bound_focus engine.Impl (accessor s chain) focus h Hs Hf).
Qed.

(** C9, as amended.  For a chain of well-behaved optics bound to a
    state on which its foci resolve, [modify] with the identity
    function returns the state itself and leaves the store as it was.
    For a chain of item accesses on lists and tuples whose foci resolve,
    [modify] with the identity function returns a state that is equal to
    the original one by value (the lists on the way are new objects
    with the same items) and touches no object that existed. *)
Theorem modify_identity_well_behaved :
  (forall (P : val -> Prop) (chain : engine.CompositeOptic) (s : val)
          (h h' : heap) (l : list val),
     Forall (well_behaved P) chain ->
     P s ->
     s <> VNone ->
     get_all (accessor s chain) None h = (Ok l, h') ->
     modify (accessor s chain) (fun a => ret a) None h = (Ok s, h)) /\
  (forall (keys : list val) (depth : nat) (s : val) (h h' : heap)
          (l : list val),
     s <> VNone ->
     value_eqb depth h s h s = true ->
     get_all (accessor s (item_chain keys)) None h = (Ok l, h') ->
     exists s' h2,
       modify (accessor s (item_chain keys)) (fun a => ret a) None h =
         (Ok s', h2) /\
       preserves h h2 /\
       value_eqb depth h s h2 s' = true).
Proof.
  split.
  - intros P chain s h h' l Hwb Ps Hs Hget.
    unfold accessor in *.
    rewrite get_all_bound in Hget by assumption.
    rewrite modify_bound by assumption.
    simpl in *. unfold engine.to_list_of in Hget. unfold engine.over.
    rewrite (forallb_writable Hwb).
    destruct (forallb engine.readable chain); [|discriminate].
    now destruct (over_chain_identity Hwb _ _ Ps Hget).
  - intros keys depth s h h' l Hs Heq Hget.
    unfold accessor in *.
    rewrite get_all_bound in Hget by assumption.
    rewrite modify_bound by assumption.
    simpl in *. unfold engine.to_list_of in Hget. unfold engine.over.
    destruct (item_chain_capabilities keys) as [Hr Hw].
    rewrite Hr in Hget. rewrite Hw.
    now destruct (over_item_chain _ _ _ _ Heq Hget) as [_ H].
Qed.

End EngineClaims.

(** C8: [construct] with a focus on an accessor that is bound to a state
    raises, although the chain is reversible and [re().view(focus)] is
    defined. *)
Lemma construct_counterexample :
  forallb engine.reversible engine.TrivialIso = true /\
  bindM (engine.re engine.TrivialIso) (fun r => engine.view r (VInt 2)) [] =
    (Ok (VInt 2), []) /\
  construct (mkLens (O:=engine.Impl) (VInt 1) engine.TrivialIso)
            (Some (VInt 2)) [] =
    (Raise (ValueError "Lens.bind requires an unbound lens"), []).
Proof. repeat split. Qed.


(** C9: three chains on which [modify] with the identity function does
    not return the original state: the read-only [Getter(abs)] of the
    docstring of [f_], the average lens of the docstring of
    [getter_setter_] on the list [[1, 2]], and item access past the end
    of a tuple. *)
Lemma modify_identity_counterexample :
  get (mkLens (O:=engine.Impl) (VInt (-1)) abs_getter) None [] =
    (Ok (VInt 1), []) /\
  modify (mkLens (O:=engine.Impl) (VInt (-1)) abs_getter)
         (fun a => ret a) None [] =
    (Raise (CapabilityError "the optic cannot be modified"), []) /\
  modify (mkLens (O:=engine.Impl) (VRef 0%nat) average_lens)
         (fun a => ret a) None [[VInt 1; VInt 2]] =
    (Ok (VRef 1%nat), [[VInt 1; VInt 2]; [VInt 1; VInt 1]]) /\
  modify (mkLens (O:=engine.Impl) (VTuple [VInt 1; VInt 2; VInt 3])
                 (engine.GetitemLens (VInt 5)))
         (fun a => ret a) None [] =
    (Raise (IndexError "tuple index out of range"), []).
Proof. repeat split. Qed.

(** C6.  [call_mut] hands to [modify] a function that copies the focus
    (deeply unless [shallow] is passed and true), calls the named method
    on the copy, drops what the method returns and gives the copy back
    as the new focus.  Every object that existed before the call keeps
    its items, whatever the outcome, and the new focus is not one of
    those objects; a deep copy, moreover, is built of new objects only.
    Through a chain of item accesses the whole call leaves every object
    that existed untouched.
    With [sort] on a list of integers the new focus is a
    new list holding the sorted items.  On the state
    [[[3, 1, 2], [5, 4]]] with the optic [[0]], the result is a new outer
    list whose first item is the new list [[1, 2, 3]]; the list
    [[3, 1, 2]] is still in the store as it was. *)
Theorem call_mut_copies_focus :
  (forall (O : optics.Impl) (self : @Lens O) name args h,
     call_mut self name args [] h =
     modify self (call_mut_func (VBool false) name args []) None h) /\
  (forall (O : optics.Impl) (self : @Lens O) name args shallow h,
     call_mut self name args [("shallow", shallow)] h =
     modify self (call_mut_func shallow name args []) None h) /\
  (forall shallow name args kw a h a' h',
     call_mut_func shallow name args kw a h = (Ok a', h') ->
     exists sh h1 ignored,
       truthy shallow h = (Ok sh, h) /\
       (if sh then copy_copy a else copy_deepcopy a) h = (Ok a', h1) /\
       call_method a' name args kw h1 = (Ok ignored, h') /\
       not_in h a' /\
       (sh = false ->
        new_val (List.length h) a' = true /\ closed_new h h1)) /\
  (forall shallow name args kw a h r h',
     call_mut_func shallow name args kw a h = (r, h') -> preserves h h') /\
  (forall s keys name args kw h r h',
     call_mut (accessor s (item_chain keys)) name args kw h = (r, h') ->
     preserves h h') /\
  (forall (shallow : bool) l zs h,
     nth_error h l = Some (map VInt zs) ->
     call_mut_func (VBool shallow) "sort" [] [] (VRef l) h =
       (Ok (VRef (List.length h)), h ++ [map VInt (sorted zs)]) /\
     Sorted Z.le (sorted zs) /\ Permutation zs (sorted zs)) /\
  call_mut (accessor (VRef 2%nat) (engine.GetitemLens (VInt 0)))
           "sort" [] [] nested_lists =
    (Ok (VRef 4%nat),
     nested_lists ++ [[VInt 1; VInt 2; VInt 3]; [VRef 3%nat; VRef 1%nat]]).
Proof.
  split; [|split; [|split; [|split; [|split; [|split]]]]].
  - reflexivity.
  - reflexivity.
  - intros shallow name args kw a h a' h' E.
    pose proof (keeps_call_mut_func shallow name args kw a (preserves_refl h) E)
      as [_ Hnew].
    unfold call_mut_func, bindM in E.
    destruct (truthy shallow h) as [[sh|e] h0] eqn:Et; [|discriminate].
    pose proof (truthy_store _ _ Et) as ->.
    destruct ((if sh then copy_copy a else copy_deepcopy a) h)
      as [[c|e] h1] eqn:Ec; [|discriminate].
    destruct (call_method c name args kw h1) as [[x|e] h2] eqn:Em;
      [|discriminate].
    inversion E; subst.
    exists sh, h1, x. split; [reflexivity|]. split; [assumption|].
    split; [assumption|]. split; [now apply Hnew|].
    intros ->. now destruct (copy_deepcopy_separate _ _ Ec) as (? & ? & _).
  - intros shallow name args kw a h r h' E.
    now destruct (keeps_call_mut_func shallow name args kw a (preserves_refl h) E).
  - intros s keys name args kw h r h' E.
    now destruct (keeps_call_mut_item_chain s keys name args kw
                    (preserves_refl h) E).
  - intros shallow l zs h Hl. split; [now apply call_mut_func_sort|].
    split; [apply sorted_Sorted|apply sorted_Permutation].
  - vm_compute. reflexivity.
Qed.

(* ================================================================== *)
(** * The claims at concrete inputs *)
(* ================================================================== *)

(** C1 at [lens((1, 2, 3))[1]], whose focus is [2], and at a prism that
    finds no focus. *)
Lemma get_returns_first_focus_witness :
  (get_all (accessor (VTuple [VInt 1; VInt 2; VInt 3])
                     (engine.GetitemLens (VInt 1))) None [] =
     (Ok [VInt 2], []) /\
   get (accessor (VTuple [VInt 1; VInt 2; VInt 3])
                 (engine.GetitemLens (VInt 1))) None [] =
     (Ok (VInt 2), [])) /\
  (get_all (accessor (VInt 1) [engine.PrismO (fun _ => ret None) (fun a => ret a)])
           None [] = (Ok [], []) /\
   get (accessor (VInt 1) [engine.PrismO (fun _ => ret None) (fun a => ret a)])
       None [] = (Raise (IndexError "list index out of range"), [])).
Proof.
  split; (split; [reflexivity|]).
  - apply (@get_returns_first_focus engine.Impl
             (accessor (VTuple [VInt 1; VInt 2; VInt 3])
                       (engine.GetitemLens (VInt 1)))
             None [] [] [VInt 2]).
    reflexivity.
  - apply (@get_returns_first_focus engine.Impl
             (accessor (VInt 1)
                [engine.PrismO (fun _ => ret None) (fun a => ret a)])
             None [] [] []).
    reflexivity.
Defined.

(** C2 at [lens((1, 2, 3))[1].set(4)]. *)
Lemma set_is_modify_with_constant_witness :
  state (accessor (VTuple [VInt 1; VInt 2; VInt 3]) (engine.GetitemLens (VInt 1)))
    <> VNone /\
  set (accessor (VTuple [VInt 1; VInt 2; VInt 3]) (engine.GetitemLens (VInt 1)))
      (VInt 4) None [] =
  modify (accessor (VTuple [VInt 1; VInt 2; VInt 3]) (engine.GetitemLens (VInt 1)))
         (fun _ => ret (VInt 4)) None [].
Proof.
  split; [discriminate|].
  apply set_is_modify_with_constant. discriminate.
Defined.

(** C3 at [lens()]. *)
Lemma unbound_query_raises_witness :
  state (accessor VNone engine.TrivialIso) = VNone /\
  get (accessor VNone engine.TrivialIso) None [] =
    (Raise (ValueError "Lens.get requires a bound lens"), []).
Proof.
  split; [reflexivity|].
  exact (proj1 (@unbound_query_raises engine.Impl
                  (accessor VNone engine.TrivialIso) [] eq_refl)).
Defined.

(** C4 at [lens(1).bind(2)] and [lens().bind(2)]. *)
Lemma bind_single_use_witness :
  (state (accessor (VInt 1) engine.TrivialIso) <> VNone /\
   bind (accessor (VInt 1) engine.TrivialIso) (VInt 2) [] =
     (Raise (ValueError "Lens.bind requires an unbound lens"), [])) /\
  (state (accessor VNone engine.TrivialIso) = VNone /\
   bind (accessor VNone engine.TrivialIso) (VInt 2) [] =
     (Ok (accessor (VInt 2) engine.TrivialIso), [])).
Proof.
  split; split.
  - discriminate.
  - apply (proj1 (@bind_single_use engine.Impl
                    (accessor (VInt 1) engine.TrivialIso) [])).
    discriminate.
  - reflexivity.
  - apply (proj2 (@bind_single_use engine.Impl
                    (accessor VNone engine.TrivialIso) [])).
    reflexivity.
Defined.


(** C6 at the list [[3, 1, 2]] of the docstring: the copy is sorted and
    the list is preserved. *)
Lemma call_mut_copies_focus_witness :
  nth_error nested_lists 0 = Some (map VInt [3; 1; 2]) /\
  call_mut_func (VBool false) "sort" [] [] (VRef 0%nat) nested_lists =
    (Ok (VRef 3%nat), nested_lists ++ [[VInt 1; VInt 2; VInt 3]]) /\
  preserves nested_lists (nested_lists ++ [[VInt 1; VInt 2; VInt 3]]).
Proof.
  destruct call_mut_copies_focus as (_ & _ & _ & Hkeep & _ & Hsort & _).
  assert (Hl : nth_error nested_lists 0 = Some (map VInt [3; 1; 2]))
    by reflexivity.
  pose proof (proj1 (Hsort false 0%nat [3; 1; 2] nested_lists Hl)) as Hrun.
  split; [exact Hl|]. split; [exact Hrun|].
  exact (Hkeep _ _ _ _ _ _ _ _ Hrun).
Defined.

(** C7 at the names [each_], [call_mut_sort], [call_upper] and [left]. *)
Lemma getattr_dispatch_witness :
  (endswith "each_" "_" = true /\
   __getattr__ (accessor VNone engine.TrivialIso) "each_" [] =
     (Raise (AttributeError "Not a valid lens constructor"), [])) /\
  (endswith "call_mut_sort" "_" = false /\
   startswith "call_mut_sort" "call_mut_" = true /\
   exists caller suffix,
     __getattr__ (accessor VNone engine.TrivialIso) "call_mut_sort" [] =
       (Ok (Caller caller), []) /\
     "call_mut_sort" = ("call_mut_" ++ suffix)%string /\
     forall args kw,
       caller args kw = call_mut (accessor VNone engine.TrivialIso) suffix args kw) /\
  (endswith "call_upper" "_" = false /\
   startswith "call_upper" "call_mut_" = false /\
   startswith "call_upper" "call_" = true /\
   exists caller suffix,
     __getattr__ (accessor VNone engine.TrivialIso) "call_upper" [] =
       (Ok (Caller caller), []) /\
     "call_upper" = ("call_" ++ suffix)%string /\
     forall args kw,
       caller args kw = call (accessor VNone engine.TrivialIso) suffix args kw) /\
  (endswith "left" "_" = false /\
   startswith "left" "call_mut_" = false /\
   startswith "left" "call_" = false /\
   __getattr__ (accessor VNone engine.TrivialIso) "left" [] =
     (Ok (Accessor (accessor VNone (engine.GetZoomAttrTraversal "left"))), [])).
Proof.
  split; [|split; [|split]].
  - split; [reflexivity|].
    exact (proj1 (@getattr_dispatch engine.Impl
                    (accessor VNone engine.TrivialIso) "each_" []) eq_refl).
  - split; [reflexivity|]. split; [reflexivity|].
    exact (proj1 (proj2 (@getattr_dispatch engine.Impl
                    (accessor VNone engine.TrivialIso) "call_mut_sort" []))
                 eq_refl eq_refl).
  - split; [reflexivity|]. split; [reflexivity|]. split; [reflexivity|].
    exact (proj1 (proj2 (proj2 (@getattr_dispatch engine.Impl
                    (accessor VNone engine.TrivialIso) "call_upper" [])))
                 eq_refl eq_refl eq_refl).
  - split; [reflexivity|]. split; [reflexivity|]. split; [reflexivity|].
    exact (proj1 (proj2 (proj2 (proj2 (@getattr_dispatch engine.Impl
                    (accessor VNone engine.TrivialIso) "left" []))))
                 eq_refl eq_refl eq_refl).
Defined.

(** C8 at an isomorphism between an integer and its successor, composed
    with itself: constructing from the focus [5] gives the state [3]. *)
Lemma construct_runs_reversed_chain_witness :
  let successor :=
    engine.IsomorphismO (fun s => call_method s "__add__" [VInt 1] [])
                        (fun a => call_method a "__sub__" [VInt 1] []) in
  VInt 5 <> VNone /\
  forallb engine.reversible [successor; successor] = true /\
  construct (accessor VNone [successor; successor]) (Some (VInt 5)) [] =
    run_backwards [successor; successor] (VInt 5) [] /\
  run_backwards [successor; successor] (VInt 5) [] = (Ok (VInt 3), []).
Proof.
  intro successor.
  assert (Hf : VInt 5 <> VNone) by discriminate.
  split; [exact Hf|]. split; [reflexivity|]. split; [|reflexivity].
  exact (proj1 (proj2 (proj1 (construct_runs_reversed_chain
                                 [successor; successor] [] Hf) eq_refl))).
Defined.

(** C9 at [lens(((1, 2), 3))[0][1]] and at [lens([1, 2, 3])[1]], the
    list being the object at location 0. *)
Lemma modify_identity_well_behaved_witness :
  let chain := engine.GetitemLens (VInt 0) ++ engine.GetitemLens (VInt 1) in
  let s := VTuple [VTuple [VInt 1; VInt 2]; VInt 3] in
  let h := [[VInt 1; VInt 2; VInt 3]] in
  (Forall (well_behaved (fun v => immutable v = true)) chain /\
   immutable s = true /\
   s <> VNone /\
   get_all (accessor s chain) None [] = (Ok [VInt 2], []) /\
   modify (accessor s chain) (fun a => ret a) None [] = (Ok s, [])) /\
  (VRef 0%nat <> VNone /\
   value_eqb 2 h (VRef 0%nat) h (VRef 0%nat) = true /\
   get_all (accessor (VRef 0%nat) (item_chain [VInt 1])) None h =
     (Ok [VInt 2], h) /\
   exists s' h2,
     modify (accessor (VRef 0%nat) (item_chain [VInt 1])) (fun a => ret a)
            None h = (Ok s', h2) /\
     preserves h h2 /\
     value_eqb 2 h (VRef 0%nat) h2 s' = true).
Proof.
  intros chain s h. split.
  - assert (Hwb : Forall (well_behaved (fun v => immutable v = true)) chain)
      by (apply Forall_app; split; apply well_behaved_getitem).
    assert (Hs : s <> VNone) by discriminate.
    assert (Hget : get_all (accessor s chain) None [] = (Ok [VInt 2], []))
      by reflexivity.
    split; [exact Hwb|]. split; [reflexivity|]. split; [exact Hs|].
    split; [exact Hget|].
    exact (proj1 modify_identity_well_behaved
             (fun v => immutable v = true) chain s
             [] [] [VInt 2] Hwb eq_refl Hs Hget).
  - assert (Hs : VRef 0%nat <> VNone) by discriminate.
    assert (Heq : value_eqb 2 h (VRef 0%nat) h (VRef 0%nat) = true)
      by reflexivity.
    assert (Hget : get_all (accessor (VRef 0%nat) (item_chain [VInt 1]))
                           None h = (Ok [VInt 2], h)) by reflexivity.
    split; [exact Hs|]. split; [exact Heq|]. split; [exact Hget|].
    exact (proj2 modify_identity_well_behaved
             [VInt 1] 2%nat (VRef 0%nat) h h [VInt 2] Hs Heq Hget).
Defined.

(* ================================================================== *)
(** * Further properties of the front-end *)
(* ================================================================== *)

(** ** Keyword arguments: lookup after deletion *)

Lemma kw_get_del_same (kw : kwargs) (k : string) :
  kw_get (kw_del kw k) k = None.
Proof.
  induction kw as [|[k' v] rest IH]; simpl; [reflexivity|].
  destruct (String.eqb k' k) eqn:E; simpl; [assumption|].
  now rewrite E.
Qed.

Lemma kw_get_del_other (kw : kwargs) (k k' : string) :
  k <> k' -> kw_get (kw_del kw k) k' = kw_get kw k'.
Proof.
  intro Hk. induction kw as [|[k0 v] rest IH]; simpl; [reflexivity|].
  destruct (String.eqb k0 k) eqn:E; simpl.
  - apply String.eqb_eq in E; subst k0.
    apply String.eqb_neq in Hk. now rewrite Hk.
  - now rewrite IH.
Qed.

Lemma kw_del_absent (kw : kwargs) (k : string) :
  kw_get kw k = None -> kw_del kw k = kw.
Proof.
  induction kw as [|[k' v] rest IH]; simpl; [reflexivity|].
  destruct (String.eqb k' k); simpl; [discriminate|].
  intro H. now rewrite (IH H).
Qed.

Lemma kw_del_idempotent (kw : kwargs) (k : string) :
  kw_del (kw_del kw k) k = kw_del kw k.
Proof. apply kw_del_absent, kw_get_del_same. Qed.

(** ** A state handed to a query method *)

Section StateArgument.
Context {O : optics.Impl}.

Lemma rebind_state (self : Lens) (s : val) :
  s <> VNone -> rebind self s = bind self s.
Proof.
  intro Hs. apply is_None_false in Hs. unfold rebind. now rewrite Hs.
Qed.

Lemma bindM_bind_bound {A} (self : Lens) (s : val) (k : Lens -> M A) (h : heap) :
  state self <> VNone ->
  bindM (bind self s) k h =
  (Raise (ValueError "Lens.bind requires an unbound lens"), h).
Proof.
  intro Hs. unfold bindM. now rewrite (bind_bound _ _ h Hs).
Qed.

(** X1.  A query method that is given a state other than [None] binds
    the accessor to it first: [l.get(state=s)] is [l.bind(s).get()], and
    so for [get_all], [get_monoid], [set], [modify] and [construct],
    outcome and store alike. *)
Theorem state_argument_binds_first :
  forall (self : Lens) (s : val),
    s <> VNone ->
    (forall h, get self (Some s) h =
               bindM (bind self s) (fun l => get l None) h) /\
    (forall h, get_all self (Some s) h =
               bindM (bind self s) (fun l => get_all l None) h) /\
    (forall h, get_monoid self (Some s) h =
               bindM (bind self s) (fun l => get_monoid l None) h) /\
    (forall v h, set self v (Some s) h =
                 bindM (bind self s) (fun l => set l v None) h) /\
    (forall f h, modify self f (Some s) h =
                 bindM (bind self s) (fun l => modify l f None) h) /\
    (forall h, construct self (Some s) h =
               bindM (bind self s) (fun l => construct l None) h).
Proof.
  intros self s Hs.
  repeat split; intros;
    unfold get, get_all, get_monoid, set, modify, construct;
    simpl default_arg; rewrite (rebind_state self Hs); reflexivity.
Qed.

(** X2.  On an accessor that is bound to a state, a query method that
    is given another state raises the error of [bind], not one of its
    own, and so do [call] and [call_mut] when they are given the keyword
    [state], even with the value [None]; the engine is not consulted and
    the store is left as it was. *)
Theorem state_on_bound_accessor_raises :
  forall (self : Lens) (h : heap),
    state self <> VNone ->
    (forall s, s <> VNone ->
       get self (Some s) h =
         (Raise (ValueError "Lens.bind requires an unbound lens"), h) /\
       get_all self (Some s) h =
         (Raise (ValueError "Lens.bind requires an unbound lens"), h) /\
       get_monoid self (Some s) h =
         (Raise (ValueError "Lens.bind requires an unbound lens"), h) /\
       (forall v, set self v (Some s) h =
         (Raise (ValueError "Lens.bind requires an unbound lens"), h)) /\
       (forall f, modify self f (Some s) h =
         (Raise (ValueError "Lens.bind requires an unbound lens"), h)) /\
       construct self (Some s) h =
         (Raise (ValueError "Lens.bind requires an unbound lens"), h)) /\
    (forall name args kw s, kw_get kw "state" = Some s ->
       call self name args kw h =
         (Raise (ValueError "Lens.bind requires an unbound lens"), h) /\
       call_mut self name args kw h =
         (Raise (ValueError "Lens.bind requires an unbound lens"), h)).
Proof.
  intros self h Hb. split.
  - intros s Hs.
    repeat split; intros;
      unfold get, get_all, get_monoid, set, modify, construct;
      simpl default_arg; rewrite (rebind_state self Hs);
      now apply bindM_bind_bound.
  - intros name args kw s Hk.
    split; unfold call, call_mut, bind_kwarg; rewrite Hk;
      now apply bindM_bind_bound.
Qed.

End StateArgument.

(** ** Calls of methods of the focus *)

Section Calls.
Context {O : optics.Impl}.

Lemma bind_kwarg_absent (self : Lens) (kw : kwargs) :
  kw_get kw "state" = None -> bind_kwarg self kw = ret self.
Proof. intro Hk. unfold bind_kwarg. now rewrite Hk. Qed.

(** X3.  The keyword [state] of [call] and [call_mut] binds the
    accessor and is not handed on to the method:
    [l.call(name, *args, state=s, **kw)] is [l.bind(s).call(name, *args, **kw)],
    and so for [call_mut]. *)
Theorem call_state_keyword :
  forall (self : Lens) (name : string) (args : list val) (kw : kwargs) (s : val),
    kw_get kw "state" = Some s ->
    (forall h, call self name args kw h =
       bindM (bind self s)
             (fun l => call l name args (kw_del kw "state")) h) /\
    (forall h, call_mut self name args kw h =
       bindM (bind self s)
             (fun l => call_mut l name args (kw_del kw "state")) h).
Proof.
  intros self name args kw s Hk.
  split; intro h; unfold call, call_mut, bind_kwarg;
    rewrite Hk, kw_get_del_same, kw_del_idempotent; reflexivity.
Qed.

(** X4.  As its docstring says, the operation that [_carry_op(name)]
    builds is [self.call(name, *args, **kwargs)], provided no keyword is
    called [state].  On an accessor without a state the operation,
    [call] and [call_mut] all raise the error of [modify]. *)
Theorem operators_are_calls :
  forall (self : Lens) (name : string) (args : list val) (kw : kwargs),
    kw_get kw "state" = None ->
    (forall h, _carry_op name self args kw h = call self name args kw h) /\
    (state self = VNone ->
     forall h,
       _carry_op name self args kw h =
         (Raise (ValueError "Lens.modify requires a bound lens"), h) /\
       call self name args kw h =
         (Raise (ValueError "Lens.modify requires a bound lens"), h) /\
       call_mut self name args kw h =
         (Raise (ValueError "Lens.modify requires a bound lens"), h)).
Proof.
  intros self name args kw Hk.
  assert (Hcall : forall h, _carry_op name self args kw h = call self name args kw h).
  { intro h. unfold _carry_op, call.
    rewrite (bind_kwarg_absent self _ Hk), (kw_del_absent _ _ Hk). reflexivity. }
  split; [exact Hcall|].
  intros Hs h. split; [|split].
  - unfold _carry_op. now apply modify_unbound.
  - rewrite <- Hcall. unfold _carry_op. now apply modify_unbound.
  - unfold call_mut. rewrite (bind_kwarg_absent self _ Hk), bindM_ret.
    now apply modify_unbound.
Qed.

End Calls.

(** ** Composition of accessors *)

Section Navigation.
Context {O : optics.Impl}.

Lemma assert_unbound_unbound (self : Lens) (name : string) (h : heap) :
  state self = VNone -> _assert_unbound self name h = (Ok tt, h).
Proof. intro Hs. unfold _assert_unbound. rewrite Hs. reflexivity. Qed.

Lemma assert_unbound_bound (self : Lens) (name : string) (h : heap) :
  state self <> VNone ->
  _assert_unbound self name h =
  (Raise (ValueError (name ++ " requires an unbound lens")%string), h).
Proof.
  intro Hs. apply is_None_false in Hs.
  unfold _assert_unbound. rewrite Hs. reflexivity.
Qed.

(** What [add_lens] has done when it returns an accessor. *)
Lemma add_lens_inv (self : Lens) (other : other_arg) (h h' : heap) (l : Lens) :
  add_lens self other h = (Ok l, h') ->
  state l = state self /\
  exists o,
    (other = IsLensLike o \/
     exists l0, other = IsLens l0 /\ state l0 = VNone /\ o = lens l0) /\
    optics.compose (lens self) o h = (Ok (lens l), h').
Proof.
  destruct other as [o|l0|v]; simpl; unfold bindM.
  - destruct (optics.compose (lens self) o h) as [[c|e] h1] eqn:E;
      [|discriminate].
    unfold ret. intro H. injection H as <- <-.
    split; [reflexivity|]. exists o. split; [now left|exact E].
  - unfold _assert_unbound.
    destruct (is_None (state l0)) eqn:En; simpl; [|discriminate].
    apply is_None_true in En.
    destruct (optics.compose (lens self) (lens l0) h) as [[c|e] h1] eqn:E;
      [|discriminate].
    unfold ret. intro H. injection H as <- <-.
    split; [reflexivity|]. exists (lens l0). split; [|exact E].
    right. now exists l0.
  - discriminate.
Qed.

(** X5.  [add_lens] takes an optic or an accessor without a state.  Of
    such an accessor only the optic counts.  An accessor that is bound
    to a state is refused with the state-binding error, and an argument
    of any other class with [TypeError]; in both cases the engine is
    not consulted and the store is left as it was. *)
Theorem add_lens_by_argument :
  forall (self : Lens) (h : heap),
    (forall other : Lens, state other = VNone ->
       add_lens self (IsLens other) h =
       add_lens self (IsLensLike (lens other)) h) /\
    (forall other : Lens, state other <> VNone ->
       add_lens self (IsLens other) h =
       (Raise (ValueError "Lens.add_lens requires an unbound lens"), h)) /\
    (forall v, exists msg,
       add_lens self (IsOther v) h = (Raise (TypeError msg), h)).
Proof.
  intros self h. split; [|split].
  - intros other Hs. simpl. unfold bindM at 1.
    now rewrite (assert_unbound_unbound _ _ h Hs).
  - intros other Hs. simpl. unfold bindM at 1.
    now rewrite (assert_unbound_bound _ _ h Hs).
  - intro v. eexists. reflexivity.
Qed.

(** X6.  Composition keeps the state.  The accessor that [add_lens],
    [getitem_], [getzoomattr_], indexing or an attribute access returns
    has the state of the accessor it was made from (a bound accessor
    stays bound to the same state, an unbound one stays unbound), and
    its optic is what the engine composed from the old optic and the new
    one. *)
Theorem composition_keeps_state :
  forall (self l : Lens) (h h' : heap),
    (forall other, add_lens self other h = (Ok l, h') ->
       state l = state self /\
       exists o, optics.compose (lens self) o h = (Ok (lens l), h')) /\
    (forall key, getitem_ self key h = (Ok l, h') ->
       state l = state self /\
       optics.compose (lens self) (optics.GetitemLens key) h = (Ok (lens l), h')) /\
    (forall key, __getitem__ self key h = (Ok l, h') ->
       state l = state self /\
       optics.compose (lens self) (optics.GetitemLens key) h = (Ok (lens l), h')) /\
    (forall name, getzoomattr_ self name h = (Ok l, h') ->
       state l = state self /\
       optics.compose (lens self) (optics.GetZoomAttrTraversal name) h =
         (Ok (lens l), h')) /\
    (forall name, __getattr__ self name h = (Ok (Accessor l), h') ->
       state l = state self /\
       optics.compose (lens self) (optics.GetZoomAttrTraversal name) h =
         (Ok (lens l), h')).
Proof.
  intros self l h h'.
  assert (Hopt : forall o,
    add_lens self (IsLensLike o) h = (Ok l, h') ->
    state l = state self /\ optics.compose (lens self) o h = (Ok (lens l), h')).
  { intros o H. destruct (add_lens_inv _ _ _ H) as (Hs & o' & [Ho|Ho] & Hc).
    - injection Ho as <-. now split.
    - destruct Ho as (l0 & Ho & _). discriminate. }
  split; [|split; [|split; [|split]]].
  - intros other H. destruct (add_lens_inv _ _ _ H) as (Hs & o & _ & Hc).
    split; [exact Hs|]. now exists o.
  - intros key H. now apply Hopt.
  - intros key H. now apply Hopt.
  - intros name H. now apply Hopt.
  - intros name H. unfold __getattr__ in H.
    destruct (endswith name "_"); [discriminate|].
    destruct (startswith name "call_mut_"); [discriminate|].
    destruct (startswith name "call_"); [discriminate|].
    unfold bindM in H.
    destruct (add_lens self (IsLensLike (optics.GetZoomAttrTraversal name)) h)
      as [[l1|e] h1] eqn:E; [|discriminate].
    unfold ret in H. injection H as -> ->. now apply Hopt.
Qed.

(** X7.  [flip] is for accessors without a state: on a bound accessor it
    raises the state-binding error and leaves the engine alone; when it
    returns an accessor, the accessor it was called on had no state, the
    one returned has none either, and its optic is the engine's [from_]
    of the old optic. *)
Theorem flip_requires_unbound :
  forall (self : Lens) (h : heap),
    (state self <> VNone ->
     flip self h = (Raise (ValueError "Lens.flip requires an unbound lens"), h)) /\
    (forall l h', flip self h = (Ok l, h') ->
       state self = VNone /\ state l = VNone /\
       optics.from_ (lens self) h = (Ok (lens l), h')).
Proof.
  intros self h. split.
  - intro Hs. unfold flip, bindM.
    now rewrite (assert_unbound_bound _ _ h Hs).
  - intros l h'. unfold flip, bindM, _assert_unbound.
    destruct (is_None (state self)) eqn:En; simpl; [|discriminate].
    apply is_None_true in En.
    destruct (optics.from_ (lens self) h) as [[r|e] h1]; [|discriminate].
    unfold ret. intro H. injection H as <- <-.
    simpl. now rewrite En.
Qed.

(** X8.  The descriptor protocol binds the accessor to the instance.
    Looked up through the class, an accessor kept as a class attribute
    is returned as it is; looked up through an instance it is bound to
    the instance, which fails when it already has a state.  A query on
    the accessor so obtained is the query with the instance as the state
    argument. *)
Theorem descriptor_binds_instance :
  forall (self : Lens) (instance owner : val) (h : heap),
    (instance = VNone -> __get__ self instance owner h = (Ok self, h)) /\
    (instance <> VNone ->
     __get__ self instance owner h = bind self instance h) /\
    (instance <> VNone -> state self <> VNone ->
     __get__ self instance owner h =
       (Raise (ValueError "Lens.bind requires an unbound lens"), h)) /\
    bindM (__get__ self instance owner) (fun l => get l None) h =
      get self (Some instance) h /\
    bindM (__get__ self instance owner) (fun l => get_all l None) h =
      get_all self (Some instance) h /\
    bindM (__get__ self instance owner) (fun l => get_monoid l None) h =
      get_monoid self (Some instance) h /\
    (forall v,
       bindM (__get__ self instance owner) (fun l => set l v None) h =
       set self v (Some instance) h) /\
    (forall f,
       bindM (__get__ self instance owner) (fun l => modify l f None) h =
       modify self f (Some instance) h).
Proof.
  intros self instance owner h.
  assert (Hget : instance <> VNone ->
                 __get__ self instance owner h = bind self instance h).
  { intro Hi. apply is_None_false in Hi. unfold __get__. now rewrite Hi. }
  split; [intros ->; reflexivity|].
  split; [exact Hget|].
  split; [intros Hi Hs; rewrite (Hget Hi); now apply bind_bound|].
  repeat split; intros;
    unfold __get__, get, get_all, get_monoid, set, modify, rebind;
    simpl default_arg; destruct (is_None instance); reflexivity.
Qed.

(** X9.  On an accessor without a state, binding and composition
    commute: [l.add_lens(other).bind(s)] and [l.bind(s).add_lens(other)]
    give the same accessor, the same store and, when the composition
    is refused, the same exception; so do indexing, [getitem_] and
    [getzoomattr_] in place of [add_lens]. *)
Theorem binding_commutes_with_composition :
  forall (self : Lens) (s : val) (h : heap),
    state self = VNone ->
    (forall other,
       bindM (add_lens self other) (fun l => bind l s) h =
       bindM (bind self s) (fun l => add_lens l other) h) /\
    (forall key,
       bindM (__getitem__ self key) (fun l => bind l s) h =
       bindM (bind self s) (fun l => __getitem__ l key) h) /\
    (forall key,
       bindM (getitem_ self key) (fun l => bind l s) h =
       bindM (bind self s) (fun l => getitem_ l key) h) /\
    (forall name,
       bindM (getzoomattr_ self name) (fun l => bind l s) h =
       bindM (bind self s) (fun l => getzoomattr_ l name) h).
Proof.
  intros self s h Hs.
  assert (Hadd : forall other,
    bindM (add_lens self other) (fun l => bind l s) h =
    bindM (bind self s) (fun l => add_lens l other) h).
  { intro other. unfold bindM at 2. rewrite (bind_unbound _ _ h Hs).
    destruct other as [o|l0|v]; simpl; unfold bindM.
    - destruct (optics.compose (lens self) o h) as [[c|e] h1]; [|reflexivity].
      unfold ret. now rewrite bind_unbound.
    - destruct (_assert_unbound l0 "Lens.add_lens" h) as [[[]|e] h0];
        [|reflexivity].
      destruct (optics.compose (lens self) (lens l0) h0) as [[c|e] h1];
        [|reflexivity].
      unfold ret. now rewrite bind_unbound.
    - reflexivity. }
  split; [exact Hadd|]. split; [|split]; intro k; apply Hadd.
Qed.

End Navigation.

(** ** The method names of the shortcuts [call_...] and [call_mut_...] *)

Lemma endswith_underscore_cons (c : ascii) (s : string) :
  s <> EmptyString ->
  endswith (String c s) "_" = endswith s "_".
Proof.
  intro Hs. destruct s as [|d s]; [congruence|].
  unfold endswith. cbn [String.length Nat.leb Nat.sub andb].
  rewrite !Nat.sub_0_r. reflexivity.
Qed.

Lemma endswith_underscore_app (p s : string) :
  s <> EmptyString ->
  endswith (p ++ s) "_" = endswith s "_".
Proof.
  intro Hs. induction p as [|c p IH]; simpl; [reflexivity|].
  rewrite endswith_underscore_cons; [exact IH|].
  destruct p; simpl; congruence.
Qed.

Section Shortcuts.
Context {O : optics.Impl}.

(** X10.  Whenever an attribute access gives a callable, the name is
    [call_mut_] or [call_] followed by the name of the method that the
    callable hands to [call_mut], respectively [call]; that method name
    is never empty and never ends with an underscore, and the prefix
    [call_mut_] is taken before [call_].  Nothing is done to the store. *)
Theorem shortcut_method_names :
  forall (self : Lens) (name : string) (h h' : heap)
         (caller : list val -> kwargs -> M val),
    __getattr__ self name h = (Ok (Caller caller), h') ->
    h' = h /\
    exists method_name,
      method_name <> EmptyString /\
      endswith method_name "_" = false /\
      ((name = ("call_mut_" ++ method_name)%string /\
        forall args kw, caller args kw = call_mut self method_name args kw) \/
       (name = ("call_" ++ method_name)%string /\
        startswith method_name "mut_" = false /\
        forall args kw, caller args kw = call self method_name args kw)).
Proof.
  intros self name h h' caller. unfold __getattr__.
  destruct (endswith name "_") eqn:Ee; [discriminate|].
  destruct (startswith name "call_mut_") eqn:E1.
  - pose proof (startswith_slice _ _ E1) as Hn. simpl String.length in Hn.
    remember (slice_from 9 name) as m eqn:Hm. clear Hm.
    unfold ret. intro H. injection H as <- <-.
    split; [reflexivity|]. exists m. subst name.
    assert (Hne : m <> EmptyString).
    { intros ->. vm_compute in Ee. discriminate. }
    split; [exact Hne|].
    split; [now rewrite endswith_underscore_app in Ee|].
    left. split; reflexivity.
  - destruct (startswith name "call_") eqn:E2.
    + pose proof (startswith_slice _ _ E2) as Hn. simpl String.length in Hn.
      remember (slice_from 5 name) as m eqn:Hm. clear Hm.
      unfold ret. intro H. injection H as <- <-.
      split; [reflexivity|]. exists m. subst name.
      assert (Hne : m <> EmptyString).
      { intros ->. vm_compute in Ee. discriminate. }
      split; [exact Hne|].
      split; [now rewrite endswith_underscore_app in Ee|].
      right. split; [reflexivity|]. split; [|reflexivity].
      unfold startswith in *. simpl in E1. exact E1.
    + unfold bindM.
      destruct (add_lens self (IsLensLike (optics.GetZoomAttrTraversal name)) h)
        as [[l|e] h1]; discriminate.
Qed.

End Shortcuts.

(** ** What the class decorator changes *)

Section Decorator.
Context {O : optics.Impl}.

Lemma existsb_eqb_In (name : string) (l : list string) :
  existsb (String.eqb name) l = true -> In name l.
Proof.
  intro H. apply existsb_exists in H. destruct H as (x & Hin & E).
  apply String.eqb_eq in E. now subst.
Qed.

(** X11.  [_add_extra_methods] sets the names of [transparent_dunders]
    and nothing else: whatever the class held under such a name, it
    holds the operation afterwards, and every other member of the class
    is what it was.  No name written in the body of the class [Lens] is
    among them, so the decorator overwrites none of its methods and
    neither of its slots. *)
Theorem decorator_sets_only_dunders :
  (forall (cls : namespace) (name : string),
     In name transparent_dunders ->
     class_get (_add_extra_methods cls) name =
     Some (Operation (_carry_op name))) /\
  (forall (cls : namespace) (name : string),
     ~ In name transparent_dunders ->
     class_get (_add_extra_methods cls) name = class_get cls name) /\
  (forall name : string,
     class_get class_body name <> None ->
     class_get Lens_class name = class_get class_body name).
Proof.
  split; [|split].
  - intros cls name Hin. unfold _add_extra_methods.
    rewrite class_get_fold. now rewrite (In_existsb _ _ Hin).
  - intros cls name Hin. unfold _add_extra_methods.
    rewrite class_get_fold.
    destruct (existsb (String.eqb name) transparent_dunders) eqn:E;
      [|reflexivity].
    destruct Hin. now apply existsb_eqb_In.
  - intros name Hdef. unfold Lens_class, _add_extra_methods.
    rewrite class_get_fold.
    destruct (existsb (String.eqb name) transparent_dunders) eqn:E;
      [|reflexivity].
    apply existsb_eqb_In in E. exfalso. apply Hdef.
    rewrite transparent_dunders_names in E. simpl in E.
    repeat (destruct E as [<-|E]; [reflexivity|]).
    destruct E.
Qed.

End Decorator.

(** ** The two front-ends *)

Section TwoFrontEnds.
Context {O : optics.Impl}.

(** X12.  The methods [call] and [call_mut] and the operators of
    [lenses/ui/base.py] are those of [lenses/ui.py] without the keyword
    [state]: called without that keyword on the same accessor, with the
    [modify] of [lenses/ui.py], they give the same outcome and the same
    store. *)
Theorem base_methods_agree :
  forall (self : Lens) (name : string) (args : list val) (kw : kwargs),
    kw_get kw "state" = None ->
    forall h : heap,
      call self name args kw h =
        base.call (fun l f => modify l f None) self name args kw h /\
      call_mut self name args kw h =
        base.call_mut (fun l f => modify l f None) self name args kw h /\
      _carry_op name self args kw h =
        base._carry_op (fun l f => modify l f None) name self args kw h.
Proof.
  intros self name args kw Hk h.
  unfold call, call_mut, base.call, base.call_mut.
  rewrite (bind_kwarg_absent self _ Hk), (kw_del_absent _ _ Hk).
  repeat split.
Qed.

End TwoFrontEnds.

(** ** Methods called through the identity optic *)

Lemma copy_deepcopy_int (z : Z) (h : heap) :
  copy_deepcopy (VInt z) h = (Ok (VInt z), h).
Proof. reflexivity. Qed.

(** [Lens(state)] has the optic [TrivialIso()], whose one focus is the
    state itself.  The properties of this section hold for every engine
    whose [over] applies the function to the state there. *)
Section IdentityOptic.
Context {O : optics.Impl}.
Hypothesis over_TrivialIso :
  forall s f h, optics.over optics.TrivialIso s f h = f s h.

Lemma modify_TrivialIso (s : val) (f : val -> M val) (h : heap) :
  s <> VNone ->
  modify (__init__ (Some s) None) f None h = f s h.
Proof.
  intro Hs. rewrite modify_bound by exact Hs. apply over_TrivialIso.
Qed.

(** X13.  [call] runs the method on the focus itself and takes what the
    method returns as the new focus, so a method that works in place
    changes the original state: [Lens(l).call('sort')] on a list of
    integers sorts the list [l] itself and returns [None].  [call_mut]
    on the same list returns a new sorted list and leaves [l] with the
    items it had. *)
Theorem call_works_in_place :
  (forall (s : val) (name : string) (args : list val) (kw : kwargs) (h : heap),
     s <> VNone -> kw_get kw "state" = None ->
     call (__init__ (Some s) None) name args kw h =
     call_method s name args kw h) /\
  (forall (l : loc) (zs : list Z) (h : heap),
     nth_error h l = Some (map VInt zs) ->
     call (__init__ (Some (VRef l)) None) "sort" [] [] h =
       (Ok VNone, update h l (map VInt (sorted zs))) /\
     call_mut (__init__ (Some (VRef l)) None) "sort" [] [] h =
       (Ok (VRef (List.length h)), h ++ [map VInt (sorted zs)]) /\
     nth_error (h ++ [map VInt (sorted zs)]) l = Some (map VInt zs)).
Proof.
  assert (Hcall : forall s name args kw h,
    s <> VNone -> kw_get kw "state" = None ->
    call (__init__ (Some s) None) name args kw h =
    call_method s name args kw h).
  { intros s name args kw h Hs Hk. unfold call.
    rewrite (bind_kwarg_absent _ _ Hk), bindM_ret, (kw_del_absent _ _ Hk).
    now apply modify_TrivialIso. }
  split; [exact Hcall|].
  intros l zs h Hl. split; [|split].
  - rewrite Hcall by (discriminate || reflexivity).
    cbn [call_method]. unfold list_method, bindM, read. rewrite Hl.
    cbn [String.eqb Ascii.eqb Bool.eqb]. rewrite as_ints_map.
    unfold write. rewrite Hl. reflexivity.
  - unfold call_mut. cbn [bind_kwarg kw_get kw_del filter]. rewrite bindM_ret.
    rewrite modify_TrivialIso by discriminate.
    now apply (call_mut_func_sort false).
  - rewrite nth_error_app1; [exact Hl|].
    apply nth_error_Some. congruence.
Qed.

(** X14.  An operation built by [_carry_op] calls the special method of
    the focus itself.  Every name of [transparent_dunders] is a binary
    special method of [int], one of its three unary methods, or one of
    the four names that [int] has no method for.  For an integer focus
    and an operand that is not an [int], each of the binary methods
    returns [NotImplemented] and raises nothing, so [NotImplemented]
    becomes the new focus: through the identity optic it is what the
    operation returns. *)
Theorem operator_gives_NotImplemented :
  (forall name : string,
     In name transparent_dunders ->
     In name int_binary_dunders \/
     In name ["__neg__"; "__pos__"; "__invert__"] \/
     (In name ["__matmul__"; "__div__"; "__rmatmul__"; "__rdiv__"] /\
      forall z args kw h,
        call_method (VInt z) name args kw h = (Raise (AttributeError name), h))) /\
  (forall (name : string) (z : Z) (x : val) (h : heap),
     In name int_binary_dunders ->
     as_int x = None ->
     In name transparent_dunders /\
     _carry_op name (__init__ (Some (VInt z)) None) [x] [] h =
       (Ok VNotImplemented, h)).
Proof.
  split.
  - intros name Hin. rewrite transparent_dunders_operator_dunders in Hin.
    destruct (operator_dunders_of_int Hin) as [H|[H|H]];
      [now left|right; now left|right; right].
    split; [exact H|]. intros z args kw h.
    cbn [call_method]. unfold int_method.
    now rewrite (int_call_missing z args kw H).
  - intros name z x h Hin Hx. split.
    + rewrite transparent_dunders_names.
      unfold int_binary_dunders in Hin. simpl in Hin |- *.
      repeat (destruct Hin as [<-|Hin]; [tauto|]). destruct Hin.
    + unfold _carry_op. rewrite modify_TrivialIso by discriminate.
      cbn [call_method]. unfold int_method.
      now rewrite (int_call_NotImplemented z _ Hin Hx).
Qed.

(** X15.  [call_mut] drops what the method returns.  On an integer
    focus, which no method changes, [call_mut] gives the focus back
    whenever the method returns, while [call] gives what the method
    returned; when the method raises, both raise the same exception.
    The store is left as it was. *)
Theorem call_mut_returns_the_copy :
  forall (name : string) (args : list val) (z : Z) (h : heap),
    call_mut (__init__ (Some (VInt z)) None) name args [] h =
      (match int_call z name args [] with
       | Ok _ => Ok (VInt z)
       | Raise e => Raise e
       end, h) /\
    call (__init__ (Some (VInt z)) None) name args [] h =
      (int_call z name args [], h).
Proof.
  intros name args z h. split.
  - unfold call_mut. cbn [bind_kwarg kw_get kw_del filter]. rewrite bindM_ret.
    rewrite modify_TrivialIso by discriminate.
    unfold call_mut_func. cbn [truthy]. rewrite bindM_ret.
    unfold bindM. rewrite copy_deepcopy_int.
    cbn [call_method]. unfold int_method.
    destruct (int_call z name args []); reflexivity.
  - unfold call. cbn [bind_kwarg kw_get kw_del filter]. rewrite bindM_ret.
    rewrite modify_TrivialIso by discriminate.
    reflexivity.
Qed.

End IdentityOptic.

(** ** What the query methods do to the store *)

Section QueriesAndStore.
Context {O : optics.Impl}.
Variable I : heap -> Prop.

Lemma keeps_rebind (self : Lens) (s : val) :
  keeps I (rebind self s) (fun l => lens l = lens self).
Proof.
  unfold rebind. destruct (negb (is_None s)); [|now apply keeps_ret].
  unfold bind, _assert_unbound.
  destruct (negb (is_None (state self))).
  - apply keeps_bind with (Q := fun _ => True); [apply keeps_raise|].
    intros _ _. now apply keeps_ret.
  - rewrite bindM_ret_eq. now apply keeps_ret.
Qed.

Lemma keeps_assert_bound (self : Lens) (name : string) :
  keeps I (_assert_bound self name) (fun _ => True).
Proof.
  unfold _assert_bound. destruct (is_None (state self));
    [apply keeps_raise|apply keeps_ret_True].
Qed.

(** The steps that the query methods share, followed by a call of the
    engine on the optic of the accessor. *)
Lemma keeps_query {A} (self : Lens) (s : val) (name : string)
    (run : optics.LensLike -> val -> M A) :
  (forall st, keeps I (run (lens self) st) (fun _ => True)) ->
  keeps I (bindM (rebind self s)
                 (fun l => bindM (_assert_bound l name)
                                 (fun _ => run (lens l) (state l))))
        (fun _ => True).
Proof.
  intro Hrun.
  apply keeps_bind with (Q := fun l => lens l = lens self);
    [apply keeps_rebind|].
  intros l Hl.
  apply keeps_bind with (Q := fun _ => True); [apply keeps_assert_bound|].
  intros _ _. rewrite Hl. apply Hrun.
Qed.

(** X16.  The query methods do nothing to the store themselves: a
    property of the store that the engine keeps while it reads, merges,
    sets or modifies through the optic of the accessor, whatever the
    state, is kept by [get] and [get_all], by [get_monoid], by [set] and
    by [modify], with or without a state argument and whether they
    return or raise. *)
Theorem queries_add_no_effect :
  forall (self : Lens) (st : option val),
    ((forall s, keeps I (optics.to_list_of (lens self) s) (fun _ => True)) ->
     keeps I (get self st) (fun _ => True) /\
     keeps I (get_all self st) (fun _ => True)) /\
    ((forall s, keeps I (optics.view (lens self) s) (fun _ => True)) ->
     keeps I (get_monoid self st) (fun _ => True)) /\
    (forall v,
       (forall s, keeps I (optics.set (lens self) s v) (fun _ => True)) ->
       keeps I (set self v st) (fun _ => True)) /\
    (forall f,
       (forall s, keeps I (optics.over (lens self) s f) (fun _ => True)) ->
       keeps I (modify self f st) (fun _ => True)).
Proof.
  intros self st. split; [|split; [|split]].
  - intro Hrun. split.
    + unfold get.
      apply (@keeps_query _ self (default_arg st VNone) "Lens.get"
               (fun o s => bindM (optics.to_list_of o s) first_item)).
      intro s. apply keeps_bind with (Q := fun _ => True); [apply Hrun|].
      intros [|a l] _; [apply keeps_raise|apply keeps_ret_True].
    + unfold get_all.
      now apply (@keeps_query _ self (default_arg st VNone) "Lens.get_all"
                   optics.to_list_of).
  - intro Hrun. unfold get_monoid.
    now apply (@keeps_query _ self (default_arg st VNone) "Lens.get_monoid"
                 optics.view).
  - intros v Hrun. unfold set.
    now apply (@keeps_query _ self (default_arg st VNone) "Lens.set"
                 (fun o s => optics.set o s v)).
  - intros f Hrun. unfold modify.
    now apply (@keeps_query _ self (default_arg st VNone) "Lens.modify"
                 (fun o s => optics.over o s f)).
Qed.

End QueriesAndStore.

(* ================================================================== *)
(** * The further properties at concrete inputs *)
(* ================================================================== *)

(** X1 at [lens()[1].get(state=(1, 2, 3))], which is [2]. *)
Lemma state_argument_binds_first_witness :
  VTuple [VInt 1; VInt 2; VInt 3] <> VNone /\
  get (accessor VNone (engine.GetitemLens (VInt 1)))
      (Some (VTuple [VInt 1; VInt 2; VInt 3])) [] =
    bindM (bind (accessor VNone (engine.GetitemLens (VInt 1)))
                (VTuple [VInt 1; VInt 2; VInt 3]))
          (fun l => get l None) [] /\
  get (accessor VNone (engine.GetitemLens (VInt 1)))
      (Some (VTuple [VInt 1; VInt 2; VInt 3])) [] = (Ok (VInt 2), []).
Proof.
  assert (Hs : VTuple [VInt 1; VInt 2; VInt 3] <> VNone) by discriminate.
  split; [exact Hs|]. split; [|reflexivity].
  exact (proj1 (@state_argument_binds_first engine.Impl
                  (accessor VNone (engine.GetitemLens (VInt 1))) _ Hs) []).
Defined.

(** X2 at [lens(1).get(state=2)] and [lens(1).call('__neg__', state=None)]. *)
Lemma state_on_bound_accessor_raises_witness :
  state (accessor (VInt 1) engine.TrivialIso) <> VNone /\
  VInt 2 <> VNone /\
  get (accessor (VInt 1) engine.TrivialIso) (Some (VInt 2)) [] =
    (Raise (ValueError "Lens.bind requires an unbound lens"), []) /\
  kw_get [("state", VNone)] "state" = Some VNone /\
  call (accessor (VInt 1) engine.TrivialIso) "__neg__" [] [("state", VNone)] [] =
    (Raise (ValueError "Lens.bind requires an unbound lens"), []).
Proof.
  assert (Hb : state (accessor (VInt 1) engine.TrivialIso) <> VNone)
    by discriminate.
  assert (Hs : VInt 2 <> VNone) by discriminate.
  pose proof (@state_on_bound_accessor_raises engine.Impl
                (accessor (VInt 1) engine.TrivialIso) [] Hb) as [Hq Hc].
  split; [exact Hb|]. split; [exact Hs|].
  split; [exact (proj1 (Hq (VInt 2) Hs))|].
  split; [reflexivity|].
  exact (proj1 (Hc "__neg__" [] [("state", VNone)] VNone eq_refl)).
Defined.

(** X3 at [lens().call('__add__', 1, state=2)], which is [3]. *)
Lemma call_state_keyword_witness :
  kw_get [("state", VInt 2)] "state" = Some (VInt 2) /\
  call (accessor VNone engine.TrivialIso) "__add__" [VInt 1]
       [("state", VInt 2)] [] =
    bindM (bind (accessor VNone engine.TrivialIso) (VInt 2))
          (fun l => call l "__add__" [VInt 1] (kw_del [("state", VInt 2)] "state"))
          [] /\
  call (accessor VNone engine.TrivialIso) "__add__" [VInt 1]
       [("state", VInt 2)] [] = (Ok (VInt 3), []).
Proof.
  split; [reflexivity|]. split; [|reflexivity].
  exact (proj1 (@call_state_keyword engine.Impl
                  (accessor VNone engine.TrivialIso) "__add__" [VInt 1]
                  [("state", VInt 2)] (VInt 2) eq_refl) []).
Defined.

(** X4 at [lens(2) + 1] and at [lens() + 1]. *)
Lemma operators_are_calls_witness :
  kw_get [] "state" = None /\
  _carry_op "__add__" (accessor (VInt 2) engine.TrivialIso) [VInt 1] [] [] =
    call (accessor (VInt 2) engine.TrivialIso) "__add__" [VInt 1] [] [] /\
  call (accessor (VInt 2) engine.TrivialIso) "__add__" [VInt 1] [] [] =
    (Ok (VInt 3), []) /\
  state (accessor VNone engine.TrivialIso) = VNone /\
  _carry_op "__add__" (accessor VNone engine.TrivialIso) [VInt 1] [] [] =
    (Raise (ValueError "Lens.modify requires a bound lens"), []).
Proof.
  split; [reflexivity|].
  split; [exact (proj1 (@operators_are_calls engine.Impl
                          (accessor (VInt 2) engine.TrivialIso) "__add__"
                          [VInt 1] [] eq_refl) [])|].
  split; [reflexivity|]. split; [reflexivity|].
  exact (proj1 (proj2 (@operators_are_calls engine.Impl
                          (accessor VNone engine.TrivialIso) "__add__"
                          [VInt 1] [] eq_refl) eq_refl [])).
Defined.

(** X5 at [lens((1, 2)).add_lens(lens()[0])] and
    [lens((1, 2)).add_lens(lens((3, 4))[0])]. *)
Lemma add_lens_by_argument_witness :
  let self := accessor (VTuple [VInt 1; VInt 2]) engine.TrivialIso in
  (state (accessor VNone (engine.GetitemLens (VInt 0))) = VNone /\
   add_lens self (IsLens (accessor VNone (engine.GetitemLens (VInt 0)))) [] =
     add_lens self (@IsLensLike engine.Impl (engine.GetitemLens (VInt 0))) []) /\
  (state (accessor (VTuple [VInt 3; VInt 4]) (engine.GetitemLens (VInt 0)))
     <> VNone /\
   add_lens self (IsLens (accessor (VTuple [VInt 3; VInt 4])
                                   (engine.GetitemLens (VInt 0)))) [] =
     (Raise (ValueError "Lens.add_lens requires an unbound lens"), [])).
Proof.
  intro self.
  pose proof (@add_lens_by_argument engine.Impl self []) as (Hu & Hb & _).
  split.
  - split; [reflexivity|].
    exact (Hu (accessor VNone (engine.GetitemLens (VInt 0))) eq_refl).
  - assert (Hs : state (accessor (VTuple [VInt 3; VInt 4])
                                 (engine.GetitemLens (VInt 0))) <> VNone)
      by discriminate.
    split; [exact Hs|]. exact (Hb _ Hs).
Defined.

(** X6 at [lens((1, 2))[0]]. *)
Lemma composition_keeps_state_witness :
  let self := accessor (VTuple [VInt 1; VInt 2]) engine.TrivialIso in
  let l := accessor (VTuple [VInt 1; VInt 2]) (engine.GetitemLens (VInt 0)) in
  __getitem__ self (VInt 0) [] = (Ok l, []) /\
  state l = state self /\
  optics.compose (lens self) (optics.GetitemLens (VInt 0)) [] = (Ok (lens l), []).
Proof.
  intros self l.
  assert (H : __getitem__ self (VInt 0) [] = (Ok l, [])) by reflexivity.
  split; [exact H|].
  exact (proj1 (proj2 (proj2 (@composition_keeps_state engine.Impl
                                self l [] []))) (VInt 0) H).
Defined.

(** X7 at [lens(1).flip()] and [lens().flip()]. *)
Lemma flip_requires_unbound_witness :
  (state (accessor (VInt 1) engine.TrivialIso) <> VNone /\
   flip (accessor (VInt 1) engine.TrivialIso) [] =
     (Raise (ValueError "Lens.flip requires an unbound lens"), [])) /\
  (flip (accessor VNone engine.TrivialIso) [] =
     (Ok (accessor VNone engine.TrivialIso), []) /\
   state (accessor VNone engine.TrivialIso) = VNone).
Proof.
  split.
  - assert (Hs : state (accessor (VInt 1) engine.TrivialIso) <> VNone)
      by discriminate.
    split; [exact Hs|].
    exact (proj1 (@flip_requires_unbound engine.Impl
                    (accessor (VInt 1) engine.TrivialIso) []) Hs).
  - assert (H : flip (accessor VNone engine.TrivialIso) [] =
                (Ok (accessor VNone engine.TrivialIso), [])) by reflexivity.
    split; [exact H|].
    exact (proj1 (proj2 (@flip_requires_unbound engine.Impl
                           (accessor VNone engine.TrivialIso) []) _ _ H)).
Defined.

(** X8 at an accessor [lens()[0]] kept in a class and looked up through
    the instance [(1, 2)]. *)
Lemma descriptor_binds_instance_witness :
  let self := accessor VNone (engine.GetitemLens (VInt 0)) in
  VTuple [VInt 1; VInt 2] <> VNone /\
  __get__ self (VTuple [VInt 1; VInt 2]) VNone [] =
    bind self (VTuple [VInt 1; VInt 2]) [] /\
  bind self (VTuple [VInt 1; VInt 2]) [] =
    (Ok (accessor (VTuple [VInt 1; VInt 2]) (engine.GetitemLens (VInt 0))), []).
Proof.
  intro self.
  assert (Hi : VTuple [VInt 1; VInt 2] <> VNone) by discriminate.
  split; [exact Hi|]. split; [|reflexivity].
  exact (proj1 (proj2 (@descriptor_binds_instance engine.Impl self
                         (VTuple [VInt 1; VInt 2]) VNone [])) Hi).
Defined.

(** X9 at [lens()[0].bind((1, 2))] and [lens().bind((1, 2))[0]]. *)
Lemma binding_commutes_with_composition_witness :
  let self := accessor VNone engine.TrivialIso in
  state self = VNone /\
  bindM (__getitem__ self (VInt 0)) (fun l => bind l (VTuple [VInt 1; VInt 2])) [] =
    bindM (bind self (VTuple [VInt 1; VInt 2]))
          (fun l => __getitem__ l (VInt 0)) [] /\
  bindM (__getitem__ self (VInt 0)) (fun l => bind l (VTuple [VInt 1; VInt 2])) [] =
    (Ok (accessor (VTuple [VInt 1; VInt 2]) (engine.GetitemLens (VInt 0))), []).
Proof.
  intro self. split; [reflexivity|]. split; [|reflexivity].
  exact (proj1 (proj2 (@binding_commutes_with_composition engine.Impl self
                         (VTuple [VInt 1; VInt 2]) [] eq_refl)) (VInt 0)).
Defined.

(** X10 at the name [call_mut_sort]. *)
Lemma shortcut_method_names_witness :
  exists caller,
    __getattr__ (accessor VNone engine.TrivialIso) "call_mut_sort" [] =
      (Ok (Caller caller), []) /\
    exists method_name,
      method_name <> EmptyString /\
      endswith method_name "_" = false /\
      (("call_mut_sort" = ("call_mut_" ++ method_name)%string /\
        forall args kw,
          caller args kw =
          call_mut (accessor VNone engine.TrivialIso) method_name args kw) \/
       ("call_mut_sort" = ("call_" ++ method_name)%string /\
        startswith method_name "mut_" = false /\
        forall args kw,
          caller args kw =
          call (accessor VNone engine.TrivialIso) method_name args kw)).
Proof.
  eexists. split; [reflexivity|].
  exact (proj2 (@shortcut_method_names engine.Impl
                  (accessor VNone engine.TrivialIso) "call_mut_sort" [] [] _
                  eq_refl)).
Defined.

(** X11 at the names [__add__], [get] and [state]. *)
Lemma decorator_sets_only_dunders_witness :
  In "__add__" transparent_dunders /\
  class_get (O:=engine.Impl) (_add_extra_methods []) "__add__" =
    Some (Operation (_carry_op "__add__")) /\
  class_get (O:=engine.Impl) class_body "get" <> None /\
  class_get (O:=engine.Impl) Lens_class "get" = Some Def /\
  class_get (O:=engine.Impl) Lens_class "state" = Some Slot.
Proof.
  assert (Hadd : In "__add__" transparent_dunders) by (vm_compute; tauto).
  assert (Hget : class_get (O:=engine.Impl) class_body "get" <> None)
    by discriminate.
  assert (Hstate : class_get (O:=engine.Impl) class_body "state" <> None)
    by discriminate.
  pose proof (@decorator_sets_only_dunders engine.Impl) as (Hset & _ & Hbody).
  split; [exact Hadd|]. split; [exact (Hset [] "__add__" Hadd)|].
  split; [exact Hget|].
  split; [exact (Hbody "get" Hget)|exact (Hbody "state" Hstate)].
Defined.

(** X12 at [lens(2).call('__add__', 1)]. *)
Lemma base_methods_agree_witness :
  kw_get [] "state" = None /\
  call (accessor (VInt 2) engine.TrivialIso) "__add__" [VInt 1] [] [] =
    base.call (fun l f => modify l f None)
              (accessor (VInt 2) engine.TrivialIso) "__add__" [VInt 1] [] [] /\
  base.call (fun l f => modify l f None)
            (accessor (VInt 2) engine.TrivialIso) "__add__" [VInt 1] [] [] =
    (Ok (VInt 3), []).
Proof.
  split; [reflexivity|]. split; [|reflexivity].
  exact (proj1 (@base_methods_agree engine.Impl
                  (accessor (VInt 2) engine.TrivialIso) "__add__" [VInt 1] []
                  eq_refl [])).
Defined.

(** X13 at the list [[3, 1, 2]], the object at location 0. *)
Lemma call_works_in_place_witness :
  (forall s f h, optics.over (Impl:=engine.Impl) optics.TrivialIso s f h = f s h) /\
  nth_error [[VInt 3; VInt 1; VInt 2]] 0 = Some (map VInt [3; 1; 2]) /\
  call (O:=engine.Impl) (__init__ (Some (VRef 0%nat)) None) "sort" [] []
       [[VInt 3; VInt 1; VInt 2]] =
    (Ok VNone, [[VInt 1; VInt 2; VInt 3]]) /\
  call_mut (O:=engine.Impl) (__init__ (Some (VRef 0%nat)) None) "sort" [] []
           [[VInt 3; VInt 1; VInt 2]] =
    (Ok (VRef 1%nat), [[VInt 3; VInt 1; VInt 2]; [VInt 1; VInt 2; VInt 3]]).
Proof.
  assert (Hover : forall s f h,
    optics.over (Impl:=engine.Impl) optics.TrivialIso s f h = f s h)
    by reflexivity.
  assert (Hl : nth_error [[VInt 3; VInt 1; VInt 2]] 0 = Some (map VInt [3; 1; 2]))
    by reflexivity.
  pose proof (proj2 (@call_works_in_place engine.Impl Hover) 0%nat [3; 1; 2]
                    [[VInt 3; VInt 1; VInt 2]] Hl) as (Hcall & Hmut & _).
  split; [exact Hover|]. split; [exact Hl|].
  split; [exact Hcall|exact Hmut].
Defined.

(** X14 at [lens(1) + 'a']. *)
Lemma operator_gives_NotImplemented_witness :
  (forall s f h, optics.over (Impl:=engine.Impl) optics.TrivialIso s f h = f s h) /\
  In "__add__" int_binary_dunders /\
  as_int (VStr "a") = None /\
  _carry_op (O:=engine.Impl) "__add__" (__init__ (Some (VInt 1)) None)
            [VStr "a"] [] [] = (Ok VNotImplemented, []).
Proof.
  assert (Hover : forall s f h,
    optics.over (Impl:=engine.Impl) optics.TrivialIso s f h = f s h)
    by reflexivity.
  assert (Hin : In "__add__" int_binary_dunders) by (vm_compute; tauto).
  split; [exact Hover|]. split; [exact Hin|]. split; [reflexivity|].
  exact (proj2 (proj2 (@operator_gives_NotImplemented engine.Impl Hover)
                      "__add__" 1 (VStr "a") [] Hin eq_refl)).
Defined.

(** X15 at [lens(5).call_mut('__add__', 1)], which is [5], and
    [lens(5).call('__add__', 1)], which is [6]. *)
Lemma call_mut_returns_the_copy_witness :
  (forall s f h, optics.over (Impl:=engine.Impl) optics.TrivialIso s f h = f s h) /\
  call_mut (O:=engine.Impl) (__init__ (Some (VInt 5)) None) "__add__" [VInt 1]
           [] [] = (Ok (VInt 5), []) /\
  call (O:=engine.Impl) (__init__ (Some (VInt 5)) None) "__add__" [VInt 1]
       [] [] = (Ok (VInt 6), []).
Proof.
  assert (Hover : forall s f h,
    optics.over (Impl:=engine.Impl) optics.TrivialIso s f h = f s h)
    by reflexivity.
  split; [exact Hover|].
  exact (@call_mut_returns_the_copy engine.Impl Hover "__add__" [VInt 1] 5 []).
Defined.

(** X16 at [lens((1, 2, 3))[1].get()] and the property of being the
    empty store. *)
Lemma queries_add_no_effect_witness :
  let self := accessor (VTuple [VInt 1; VInt 2; VInt 3])
                       (engine.GetitemLens (VInt 1)) in
  (forall s, keeps (fun h => h = [])
                   (optics.to_list_of (Impl:=engine.Impl) (lens self) s)
                   (fun _ => True)) /\
  keeps (fun h => h = []) (get self None) (fun _ => True) /\
  get self None [] = (Ok (VInt 2), []).
Proof.
  intro self.
  assert (Hrun : forall s,
    keeps (fun h => h = [])
          (optics.to_list_of (Impl:=engine.Impl) (lens self) s)
          (fun _ => True)).
  { intros s h r h' -> E. split; [|trivial].
    destruct s; simpl in E; try (now inversion E).
    - unfold engine.to_list_of, engine.foci, engine.foci1, bindM in E.
      simpl in E. unfold getitem in E.
      destruct (position (List.length items) 1); [|now inversion E].
      destruct (nth_error items n); now inversion E.
    - unfold engine.to_list_of, engine.foci, engine.foci1, bindM in E.
      simpl in E. unfold getitem, bindM, read in E. simpl in E.
      destruct l; now inversion E. }
  split; [exact Hrun|]. split; [|reflexivity].
  exact (proj1 (proj1 (@queries_add_no_effect engine.Impl (fun h => h = [])
                         self None) Hrun)).
Defined.
